(** * linalg: the argument-checking layer in front of the BLAS level 3 and
      LAPACK gesv kernels

    The development embeds [blas/level3.go] and [lapack/gesv.go].  The
    functions of these files resolve options, validate strides, offsets and
    storage sizes, coerce the scalars and call an external kernel.  The
    kernels themselves (cgo calls into BLAS/LAPACK) are a collaborator: they
    appear as one function from a recorded call to the buffers it leaves
    behind. *)

From Stdlib Require Import ZArith Lia Bool String.
From Stdlib Require Import PrimFloat.
From stdpp Require Import base option list gmap strings pretty.

Local Open Scope Z_scope.

(** ** Numbers *)

Module GoInt.

(** Go's [int] on the 64-bit targets the package builds for: arithmetic
    wraps around in two's complement. *)
Definition wrap (z : Z) : Z := (z + 2 ^ 63) mod 2 ^ 64 - 2 ^ 63.

Definition add (a b : Z) : Z := wrap (a + b).
Definition sub (a b : Z) : Z := wrap (a - b).
Definition mul (a b : Z) : Z := wrap (a * b).

Definition in_range (z : Z) : Prop := - 2 ^ 63 <= z < 2 ^ 63.

(** The package-local helper [max(a, b int) int]. *)
Definition max (a b : Z) : Z := if a <? b then b else a.

End GoInt.

Module GoFloat.

(** [float64] is the primitive binary64 type; [complex128] a pair. *)
Definition float64 := PrimFloat.float.

Record complex128 := complex { real : float64; imag : float64 }.
Arguments complex (real imag)%_float_scope.

(** [math.IsNaN] and [math.IsInf(f, 0)]. *)
Definition IsNaN (f : float64) : bool := PrimFloat.is_nan f.
Definition IsInf (f : float64) : bool := PrimFloat.is_infinity f.

(** [cmplx.IsNaN]: true when either part is NaN and neither is an
    infinity. *)
Definition cmplx_IsNaN (x : complex128) : bool :=
  if IsInf (real x) || IsInf (imag x) then false
  else if IsNaN (real x) || IsNaN (imag x) then true
  else false.

Definition NaN : float64 := PrimFloat.nan.
Definition cmplx_NaN : complex128 := complex NaN NaN.

End GoFloat.

Export GoFloat.


(** ** Operands and their storage *)

(** The two implementations of the [matrix.Matrix] interface.  The type
    switches of [level3.go] end in a [default] branch for a third dynamic
    type (and the one of [gesv.go] would leave [info] at -1 for it); the
    matrix package has none, so these branches have no input. *)
Inductive MatrixType := FloatMatrix | ComplexMatrix.

#[global] Instance MatrixType_eq_dec : EqDecision MatrixType.
Proof. solve_decision. Defined.

(** Backing arrays live in a store, so that two operands (or an operand and
    its copy) can be told apart or share storage. *)
Definition loc := positive.

Inductive Buf :=
| FloatBuf (l : list float64)
| ComplexBuf (l : list complex128)
| IntBuf (l : list Z).

Abbreviation Store := (gmap loc Buf).

(** [matrix.Matrix] is an interface of a package outside this repository.
    An operand is represented by what the methods called in the two files
    return for it: the dynamic type, [Rows()], [Cols()], [LeadingIndex()],
    [NumElements()], [FloatValue()], [ComplexValue()], and the array that
    [FloatArray()] or [ComplexArray()] returns, by its location. *)
Record Matrix := mkMatrix {
  mtype : MatrixType;
  Rows : Z;
  Cols : Z;
  LeadingIndex : Z;
  NumElements : Z;
  FloatValue : float64;
  ComplexValue : complex128;
  elems : loc
}.

(** [matrix.EqualTypes]: all operands have the same dynamic type. *)
Fixpoint EqualTypes_from (t : MatrixType) (As : list Matrix) : bool :=
  match As with
  | [] => true
  | A :: As => bool_decide (mtype A = t) && EqualTypes_from t As
  end.

Definition EqualTypes (As : list Matrix) : bool :=
  match As with
  | [] => true
  | A :: As => EqualTypes_from (mtype A) As
  end.

(** [A.FloatArray()], [A.ComplexArray()]: the backing array; a nil slice
    when the operand is of the other type. *)
Definition FloatArray (st : Store) (A : Matrix) : list float64 :=
  match st !! elems A with Some (FloatBuf l) => l | _ => [] end.

Definition ComplexArray (st : Store) (A : Matrix) : list complex128 :=
  match st !! elems A with Some (ComplexBuf l) => l | _ => [] end.

(** [A.MakeCopy()]: a new operand over a newly allocated array with the
    same contents. *)
Definition MakeCopy (A : Matrix) (st : Store) : Matrix * Store :=
  let l := fresh (dom st) in
  (mkMatrix (mtype A) (Rows A) (Cols A) (LeadingIndex A) (NumElements A)
            (FloatValue A) (ComplexValue A) l,
   match st !! elems A with
   | Some b => <[l := b]> st
   | None => st
   end).

(** [make([]int32, n)]: a newly allocated array of [n] zeros. *)
Definition make_int32 (n : Z) (st : Store) : loc * Store :=
  let l := fresh (dom st) in
  (l, <[l := IntBuf (replicate (Z.to_nat n) 0)]> st).

(** An [[]int32] argument: nil, or a slice over a stored array. *)
Definition int32_slice (st : Store) (p : option loc) : list Z :=
  match p with
  | Some l => match st !! l with Some (IntBuf v) => v | _ => [] end
  | None => []
  end.

(** Go's simple slice expressions [s[lo:]] and [s[:hi]] on a slice whose
    capacity is its length; outside the bounds the program panics, which
    is [None] here. *)
Definition len {T} (s : list T) : Z := Z.of_nat (length s).

Definition slice_from {T} (s : list T) (lo : Z) : option (list T) :=
  if (0 <=? lo) && (lo <=? len s) then Some (drop (Z.to_nat lo) s) else None.

Definition slice_to {T} (s : list T) (hi : Z) : option (list T) :=
  if (0 <=? hi) && (hi <=? len s) then Some (take (Z.to_nat hi) s) else None.

(** The kernel has written [new] over the elements [lo .. hi) of the array
    at [l]. *)
Definition overwrite {T} (old : list T) (lo hi : Z) (new : list T) : list T :=
  take (Z.to_nat lo) old ++ new ++ drop (Z.to_nat hi) old.

Definition write_back (st : Store) (l : loc) (lo hi : Z) (new : Buf) : Store :=
  match st !! l, new with
  | Some (FloatBuf old), FloatBuf v => <[l := FloatBuf (overwrite old lo hi v)]> st
  | Some (ComplexBuf old), ComplexBuf v => <[l := ComplexBuf (overwrite old lo hi v)]> st
  | Some (IntBuf old), IntBuf v => <[l := IntBuf (overwrite old lo hi v)]> st
  | _, _ => st
  end.

(** The length of the array at [l]. *)
Definition buf_len (st : Store) (l : loc) : Z :=
  match st !! l with
  | Some (FloatBuf v) => len v
  | Some (ComplexBuf v) => len v
  | Some (IntBuf v) => len v
  | None => 0
  end.

(** An operand is well formed in a store when its array is there, holds
    elements of its type, and has [NumElements()] of them. *)
Definition well_stored (st : Store) (A : Matrix) : Prop :=
  match mtype A with
  | FloatMatrix => exists l, st !! elems A = Some (FloatBuf l) /\ len l = NumElements A
  | ComplexMatrix => exists l, st !! elems A = Some (ComplexBuf l) /\ len l = NumElements A
  end.

(** ** Options *)

(** The fields of [linalg.IndexOpts] the two files read and write. *)
Record IndexOpts := mkIndexOpts {
  M : Z; N : Z; K : Z; Nrhs : Z;
  LDa : Z; LDb : Z; LDc : Z;
  OffsetA : Z; OffsetB : Z; OffsetC : Z
}.

Definition set_N (ind : IndexOpts) (v : Z) : IndexOpts :=
  mkIndexOpts (M ind) v (K ind) (Nrhs ind) (LDa ind) (LDb ind) (LDc ind)
              (OffsetA ind) (OffsetB ind) (OffsetC ind).

Definition set_Nrhs (ind : IndexOpts) (v : Z) : IndexOpts :=
  mkIndexOpts (M ind) (N ind) (K ind) v (LDa ind) (LDb ind) (LDc ind)
              (OffsetA ind) (OffsetB ind) (OffsetC ind).

Definition set_LDa (ind : IndexOpts) (v : Z) : IndexOpts :=
  mkIndexOpts (M ind) (N ind) (K ind) (Nrhs ind) v (LDb ind) (LDc ind)
              (OffsetA ind) (OffsetB ind) (OffsetC ind).

Definition set_LDb (ind : IndexOpts) (v : Z) : IndexOpts :=
  mkIndexOpts (M ind) (N ind) (K ind) (Nrhs ind) (LDa ind) v (LDc ind)
              (OffsetA ind) (OffsetB ind) (OffsetC ind).

(** The values of the enumerated options and the fields of
    [linalg.Parameters] read in [level3.go]. *)
Inductive ParamValue :=
| PNoTrans | PTrans | PConjTrans
| PUpper | PLower
| PUnit | PNonUnit
| PLeft | PRight.

#[global] Instance ParamValue_eq_dec : EqDecision ParamValue.
Proof. solve_decision. Defined.

Record Parameters := mkParameters {
  TransA : ParamValue; TransB : ParamValue; Trans : ParamValue;
  Uplo : ParamValue; Diag : ParamValue; Side : ParamValue
}.

(** An option list [opts ...linalg.Opt] is read only through
    [linalg.GetParameters], which may fail, and [linalg.GetIndexOpts]; it is
    represented by what the two return. *)
Record Opts := mkOpts {
  GetParameters : Parameters + string;
  GetIndexOpts : IndexOpts
}.

(** ** The kernel boundary *)

(** One constructor per kernel entry point, with the arguments of the call
    in the order of the source.  Slices are passed by their contents.  The
    mode flags are kept as option values ([linalg.ParamString] turns them
    into the letters of the Fortran interface). *)
Inductive KernelCall :=
| dgemm (transA transB : ParamValue) (m n k : Z) (alpha : float64)
        (Aa : list float64) (lda : Z) (Ba : list float64) (ldb : Z)
        (beta : float64) (Ca : list float64) (ldc : Z)
| zgemm (transA transB : ParamValue) (m n k : Z) (alpha : complex128)
        (Aa : list complex128) (lda : Z) (Ba : list complex128) (ldb : Z)
        (beta : complex128) (Ca : list complex128) (ldc : Z)
| dsymm (side uplo : ParamValue) (m n : Z) (alpha : float64)
        (Aa : list float64) (lda : Z) (Ba : list float64) (ldb : Z)
        (beta : float64) (Ca : list float64) (ldc : Z)
| zhemm (side uplo : ParamValue) (m n : Z) (alpha : complex128)
        (Aa : list complex128) (lda : Z) (Ba : list complex128) (ldb : Z)
        (beta : complex128) (Ca : list complex128) (ldc : Z)
| dsyrk (uplo trans : ParamValue) (n k : Z) (alpha : float64)
        (Aa : list float64) (lda : Z) (beta : float64)
        (Ca : list float64) (ldc : Z)
| zsyrk (uplo trans : ParamValue) (n k : Z) (alpha : complex128)
        (Aa : list complex128) (lda : Z) (beta : complex128)
        (Ca : list complex128) (ldc : Z)
| zherk (uplo trans : ParamValue) (n k : Z) (alpha : complex128)
        (Aa : list complex128) (lda : Z) (beta : float64)
        (Ca : list complex128) (ldc : Z)
| dsyr2k (uplo trans : ParamValue) (n k : Z) (alpha : float64)
         (Aa : list float64) (lda : Z) (Ba : list float64) (ldb : Z)
         (beta : float64) (Ca : list float64) (ldc : Z)
| zsyr2k (uplo trans : ParamValue) (n k : Z) (alpha : complex128)
         (Aa : list complex128) (lda : Z) (Ba : list complex128) (ldb : Z)
         (beta : complex128) (Ca : list complex128) (ldc : Z)
| zher2k (uplo trans : ParamValue) (n k : Z) (alpha : complex128)
         (Aa : list complex128) (lda : Z) (Ba : list complex128) (ldb : Z)
         (beta : float64) (Ca : list complex128) (ldc : Z)
| dtrmm (side uplo transA diag : ParamValue) (m n : Z) (alpha : float64)
        (Aa : list float64) (lda : Z) (Ba : list float64) (ldb : Z)
| ztrmm (side uplo transA diag : ParamValue) (m n : Z) (alpha : complex128)
        (Aa : list complex128) (lda : Z) (Ba : list complex128) (ldb : Z)
| dtrsm (side uplo transA diag : ParamValue) (m n : Z) (alpha : float64)
        (Aa : list float64) (lda : Z) (Ba : list float64) (ldb : Z)
| ztrsm (side uplo transA diag : ParamValue) (m n : Z) (alpha : complex128)
        (Aa : list complex128) (lda : Z) (Ba : list complex128) (ldb : Z)
| dgesv (n nrhs : Z) (Aa : list float64) (lda : Z) (ipiv : list Z)
        (Ba : list float64) (ldb : Z)
| zgesv (n nrhs : Z) (Aa : list complex128) (lda : Z) (ipiv : list Z)
        (Ba : list complex128) (ldb : Z).

(** What a kernel leaves behind: the contents of the output operand's slice
    ([C], or [B] where the operation overwrites [B]); for [gesv] also those
    of [A]'s slice and of [ipiv], and the status it returns. *)
Record KernelOut := mkKernelOut {
  wout : Buf;
  wA : Buf;
  wpiv : list Z;
  info : Z
}.

(** ** Results *)

(** How a call ends: [return nil], [return errors.New(msg)], or a run-time
    panic. *)
Inductive Result :=
| Nil
| Error (msg : string)
| Panic (msg : string).

(** The result, the kernel calls made in order, and the store afterwards. *)
Record Outcome := mkOutcome {
  ret : Result;
  calls : list KernelCall;
  heap : Store
}.

(** A statement sequence either falls through with a value or returns. *)
Inductive Flow (X : Type) :=
| Next (x : X)
| Return (r : Result).
Arguments Next {X} x.
Arguments Return {X} r.

Definition slice_panic : Result := Panic "slice bounds out of range".
Definition nil_panic : Result := Panic "invalid memory address or nil pointer dereference".

Definition sliced {T} (o : option (list T)) (st : Store)
    (k : list T -> Outcome) : Outcome :=
  match o with
  | Some s => k s
  | None => mkOutcome slice_panic [] st
  end.

Notation "'slice' x ':=' e 'in' st ';' k" :=
  (sliced e st (fun x => k))
  (at level 10, x name, e at level 100, st at level 9, k at level 200,
   format "'[v' 'slice'  x  ':='  e  'in'  st ';' '/' k ']'").

(** ** lapack: Gesv *)

Section Gesv.

(** The external kernels [dgesv] and [zgesv] (and those of level 3). *)
Variable kernel : KernelCall -> KernelOut.

(** Modelled from the spec: [onError] (package lapack, not among the
    sources); section 7 has every failure surfaced to the caller as an
    error carrying the message. *)
Definition onError (msg : string) : Result := Error msg.

(** The resolved configuration after line 72: the options with [N], [Nrhs],
    [LDa], [LDb] filled in, and the row strides [arows], [brows] that the
    size checks use. *)
Record GesvConfig := mkGesvConfig {
  gind : IndexOpts;
  arows : Z;
  brows : Z
}.

(** Lines 44-72: dimensions, the zero-dimension return, leading strides. *)
Definition Gesv_resolve (A B : Matrix) (ind : IndexOpts) : Flow GesvConfig :=
  let arows := LDa ind in
  let brows := LDb ind in
  if (N ind <? 0) && negb (Rows A =? Cols A) then
    Return (onError "Gesv: A not square")
  else
  let ind := if N ind <? 0 then set_N ind (Rows A) else ind in
  let ind := if Nrhs ind <? 0 then set_Nrhs ind (Cols B) else ind in
  if (N ind =? 0) || (Nrhs ind =? 0) then Return Nil else
  let arows := if LDa ind =? 0 then GoInt.max 1 (Rows A) else arows in
  let ind := if LDa ind =? 0 then set_LDa ind (GoInt.max 1 (LeadingIndex A)) else ind in
  if LDa ind <? GoInt.max 1 (N ind) then Return (onError "Gesv: ldA") else
  let brows := if LDb ind =? 0 then GoInt.max 1 (Rows B) else brows in
  let ind := if LDb ind =? 0 then set_LDb ind (GoInt.max 1 (LeadingIndex B)) else ind in
  if LDb ind <? GoInt.max 1 (N ind) then Return (onError "Gesv: ldB") else
  Next (mkGesvConfig ind arows brows).

(** Lines 73-89: offsets, storage sizes, the length of [ipiv]. *)
Definition Gesv_bounds (A B : Matrix) (ipiv : option loc) (st : Store)
    (c : GesvConfig) : Flow GesvConfig :=
  let ind := gind c in
  if OffsetA ind <? 0 then Return (onError "Gesv: offsetA") else
  if OffsetB ind <? 0 then Return (onError "Gesv: offsetB") else
  let sizeA := NumElements A in
  if sizeA <? GoInt.add (GoInt.add (OffsetA ind)
                           (GoInt.mul (GoInt.sub (N ind) 1) (arows c))) (N ind)
  then Return (onError "Gesv: sizeA") else
  let sizeB := NumElements B in
  if sizeB <? GoInt.add (GoInt.add (OffsetB ind)
                           (GoInt.mul (GoInt.sub (Nrhs ind) 1) (brows c))) (N ind)
  then Return (onError "Gesv: sizeB") else
  if bool_decide (ipiv <> None) && (len (int32_slice st ipiv) <? N ind) then
    Return (onError "Gesv: size ipiv")
  else Next c.

(** Lines 73-92: the bounds, then the operand types. *)
Definition Gesv_validate (A B : Matrix) (ipiv : option loc) (st : Store)
    (c : GesvConfig) : Flow GesvConfig :=
  match Gesv_bounds A B ipiv st c with
  | Return r => Return r
  | Next c =>
      if negb (EqualTypes [A; B]) then
        Return (onError "Gesv: arguments not of same type")
      else Next c
  end.

(** Lines 117-120. *)
Definition Gesv_status (info : Z) : Result :=
  if negb (info =? 0) then
    onError ("Gesv: lapack error: " +:+ pretty info)
  else Nil.

(** What [gesv] has written when it returns: the factors over the slice of
    [A], the pivots over [ipiv], the solution over the slice of [B]. *)
Definition Gesv_written (st : Store) (A B : Matrix) (ipiv : loc)
    (ind : IndexOpts) (hiA : Z) (out : KernelOut) : Store :=
  let st := write_back st (elems A) (OffsetA ind) (OffsetA ind + hiA) (wA out) in
  let st := write_back st ipiv 0 (buf_len st ipiv) (IntBuf (wpiv out)) in
  write_back st (elems B) (OffsetB ind) (buf_len st (elems B)) (wout out).

(** Lines 93-121: the private copy when no [ipiv] is given, the slices, the
    kernel call, and the status. *)
Definition Gesv_call (A B : Matrix) (ipiv : option loc) (st : Store)
    (c : GesvConfig) : Outcome :=
  let ind := gind c in
  let '(ipiv, A, st) :=
    match ipiv with
    | Some p => (p, A, st)
    | None =>
        let '(p, st) := make_int32 (N ind) st in
        let '(A, st) := MakeCopy A st in
        (p, A, st)
    end in
  let hiA := GoInt.mul (LDa ind) (LDb ind) in
  match mtype A with
  | FloatMatrix =>
      slice Aa := slice_from (FloatArray st A) (OffsetA ind) in st;
      slice Aa := slice_to Aa hiA in st;
      slice Ba := slice_from (FloatArray st B) (OffsetB ind) in st;
      let call := dgesv (N ind) (Nrhs ind) Aa (LDa ind)
                        (int32_slice st (Some ipiv)) Ba (LDb ind) in
      mkOutcome (Gesv_status (info (kernel call))) [call]
                (Gesv_written st A B ipiv ind hiA (kernel call))
  | ComplexMatrix =>
      slice Aa := slice_from (ComplexArray st A) (OffsetA ind) in st;
      slice Aa := slice_to Aa hiA in st;
      slice Ba := slice_from (ComplexArray st B) (OffsetB ind) in st;
      let call := zgesv (N ind) (Nrhs ind) Aa (LDa ind)
                        (int32_slice st (Some ipiv)) Ba (LDb ind) in
      mkOutcome (Gesv_status (info (kernel call))) [call]
                (Gesv_written st A B ipiv ind hiA (kernel call))
  end.

(** [func Gesv(A, B matrix.Matrix, ipiv []int32, opts ...linalg.Option) error];
    [ind] is what [linalg.GetIndexOpts(opts...)] returns. *)
Definition Gesv (A B : Matrix) (ipiv : option loc) (ind : IndexOpts)
    (st : Store) : Outcome :=
  match Gesv_resolve A B ind with
  | Return r => mkOutcome r [] st
  | Next c =>
      match Gesv_validate A B ipiv st c with
      | Return r => mkOutcome r [] st
      | Next c => Gesv_call A B ipiv st c
      end
  end.

End Gesv.

(** ** blas: level 3 *)

(** The selectors passed to [check_level3_func]. *)
Inductive funcNum := fgemm | fsymm | fsyrk | fsyr2k | ftrmm | ftrsm.

#[global] Instance funcNum_eq_dec : EqDecision funcNum.
Proof. solve_decision. Defined.

Definition tried {X} (f : Flow X) (st : Store) (k : X -> Outcome) : Outcome :=
  match f with
  | Next x => k x
  | Return r => mkOutcome r [] st
  end.

Notation "'try' x ':=' e 'in' st ';' k" :=
  (tried e st (fun x => k))
  (at level 10, x name, e at level 100, st at level 9, k at level 200,
   format "'[v' 'try'  x  ':='  e  'in'  st ';' '/' k ']'").

Section Level3.

Variable kernel : KernelCall -> KernelOut.

(** [check_level3_func] belongs to package blas but is not among the
    sources; the functions below are embedded over any such function.  It
    receives the options by pointer and fills them in, so it returns them
    next to its error. *)
Variable check_level3_func :
  IndexOpts -> funcNum -> Matrix -> option Matrix -> option Matrix ->
  Parameters -> IndexOpts * option string.

(** The statements every function starts with: parse the options, run the
    check, return its error. *)
Definition checked (fn : funcNum) (A : Matrix) (B C : option Matrix)
    (opts : Opts) : Flow (Parameters * IndexOpts) :=
  match GetParameters opts with
  | inr e => Return (Error e)
  | inl params =>
      let ind := GetIndexOpts opts in
      match check_level3_func ind fn A B C params with
      | (_, Some err) => Return (Error err)
      | (ind, None) => Next (params, ind)
      end
  end.

(** A level 3 kernel call: the kernel has overwritten the slice of the
    output operand that starts at [off]. *)
Definition invoke (call : KernelCall) (out : Matrix) (off : Z)
    (st : Store) : Outcome :=
  mkOutcome Nil [call]
    (write_back st (elems out) off (buf_len st (elems out))
                (wout (kernel call))).

Definition not_same_type : Result := Error "Parameters not of same type".

Definition Gemm (A B C : Matrix) (alpha beta : option Matrix) (opts : Opts)
    (st : Store) : Outcome :=
  try c := checked fgemm A (Some B) (Some C) opts in st;
  let '(params, ind) := c in
  if (M ind =? 0) || (N ind =? 0) then mkOutcome Nil [] st else
  if negb (EqualTypes [A; B; C]) then mkOutcome not_same_type [] st else
  match mtype A with
  | FloatMatrix =>
      let Aa := FloatArray st A in
      let Ba := FloatArray st B in
      let Ca := FloatArray st C in
      let aval := match alpha with Some a => FloatValue a | None => 1%float end in
      let bval := match beta with Some b => FloatValue b | None => 0%float end in
      if IsNaN aval || IsNaN bval then
        mkOutcome (Error "alpha or beta not a number") [] st
      else
      let transB := TransB params in
      let transA := TransA params in
      slice Aa := slice_from Aa (OffsetA ind) in st;
      slice Ba := slice_from Ba (OffsetB ind) in st;
      slice Ca := slice_from Ca (OffsetC ind) in st;
      invoke (dgemm transA transB (M ind) (N ind) (K ind) aval
                    Aa (LDa ind) Ba (LDb ind) bval Ca (LDc ind))
             C (OffsetC ind) st
  | ComplexMatrix =>
      let Aa := ComplexArray st A in
      let Ba := ComplexArray st B in
      let Ca := ComplexArray st C in
      let aval := complex 1%float 0%float in
      try aval :=
        match alpha with
        | Some a =>
            let aval := ComplexValue a in
            if cmplx_IsNaN aval then Next (complex (FloatValue a) 0%float)
            else Return (Error "alpha not a number")
        | None => Next aval
        end in st;
      let bval := complex 0%float 0%float in
      try ab :=
        match beta with
        | Some b =>
            let bval := ComplexValue b in
            if cmplx_IsNaN bval then Next (complex (FloatValue b) 0%float, bval)
            else Return (Error "beta not a number")
        | None => Next (aval, bval)
        end in st;
      let '(aval, bval) := ab in
      let transB := TransB params in
      let transA := TransA params in
      slice Aa := slice_from Aa (OffsetA ind) in st;
      slice Ba := slice_from Ba (OffsetB ind) in st;
      slice Ca := slice_from Ca (OffsetC ind) in st;
      invoke (zgemm transA transB (M ind) (N ind) (K ind) aval
                    Aa (LDa ind) Ba (LDb ind) bval Ca (LDc ind))
             C (OffsetC ind) st
  end.

Definition Symm (A B C : Matrix) (alpha beta : option Matrix) (opts : Opts)
    (st : Store) : Outcome :=
  try c := checked fsymm A (Some B) (Some C) opts in st;
  let '(params, ind) := c in
  if (M ind =? 0) || (N ind =? 0) then mkOutcome Nil [] st else
  if negb (EqualTypes [A; B; C]) then mkOutcome not_same_type [] st else
  match mtype A with
  | FloatMatrix =>
      let Aa := FloatArray st A in
      let Ba := FloatArray st B in
      let Ca := FloatArray st C in
      let aval := match alpha with Some a => FloatValue a | None => 1%float end in
      let bval := match beta with Some b => FloatValue b | None => 0%float end in
      if IsNaN aval || IsNaN bval then
        mkOutcome (Error "alpha or beta not a number") [] st
      else
      let uplo := Uplo params in
      let side := Side params in
      slice Aa := slice_from Aa (OffsetA ind) in st;
      slice Ba := slice_from Ba (OffsetB ind) in st;
      slice Ca := slice_from Ca (OffsetC ind) in st;
      invoke (dsymm side uplo (M ind) (N ind) aval
                    Aa (LDa ind) Ba (LDb ind) bval Ca (LDc ind))
             C (OffsetC ind) st
  | ComplexMatrix =>
      let Aa := ComplexArray st A in
      let Ba := ComplexArray st B in
      let Ca := ComplexArray st C in
      let aval := complex 1%float 0%float in
      try aval :=
        match alpha with
        | Some a =>
            let aval := ComplexValue a in
            if cmplx_IsNaN aval then Next (complex (FloatValue a) 0%float)
            else Return (Error "alpha not a number")
        | None => Next aval
        end in st;
      let bval := complex 0%float 0%float in
      try bval :=
        match beta with
        | Some b =>
            let bval := ComplexValue b in
            if cmplx_IsNaN bval then Next (complex (FloatValue b) 0%float)
            else Return (Error "beta not a number")
        | None => Next bval
        end in st;
      let uplo := Uplo params in
      let side := Side params in
      slice Aa := slice_from Aa (OffsetA ind) in st;
      slice Ba := slice_from Ba (OffsetB ind) in st;
      slice Ca := slice_from Ca (OffsetC ind) in st;
      invoke (zhemm side uplo (M ind) (N ind) aval
                    Aa (LDa ind) Ba (LDb ind) bval Ca (LDc ind))
             C (OffsetC ind) st
  end.

Definition Hemm (A B C : Matrix) (alpha beta : option Matrix) (opts : Opts)
    (st : Store) : Outcome :=
  Symm A B C alpha beta opts st.

Definition Syrk (A C : Matrix) (alpha beta : option Matrix) (opts : Opts)
    (st : Store) : Outcome :=
  try c := checked fsyrk A None (Some C) opts in st;
  let '(params, ind) := c in
  if negb (EqualTypes [A; C]) then mkOutcome not_same_type [] st else
  match mtype A with
  | FloatMatrix =>
      let Aa := FloatArray st A in
      let Ca := FloatArray st C in
      let aval := match alpha with Some a => FloatValue a | None => 1%float end in
      let bval := match beta with Some b => FloatValue b | None => 0%float end in
      if IsNaN aval || IsNaN bval then
        mkOutcome (Error "alpha or beta not a number") [] st
      else
      let uplo := Uplo params in
      let trans := Trans params in
      slice Aa := slice_from Aa (OffsetA ind) in st;
      slice Ca := slice_from Ca (OffsetC ind) in st;
      invoke (dsyrk uplo trans (N ind) (K ind) aval Aa (LDa ind) bval
                    Ca (LDc ind))
             C (OffsetC ind) st
  | ComplexMatrix =>
      let Aa := ComplexArray st A in
      let Ca := ComplexArray st C in
      let aval := complex 1%float 0%float in
      try aval :=
        match alpha with
        | Some a =>
            let aval := ComplexValue a in
            if cmplx_IsNaN aval then Next (complex (FloatValue a) 0%float)
            else Return (Error "alpha not a number")
        | None => Next aval
        end in st;
      let bval := complex 0%float 0%float in
      try bval :=
        match beta with
        | Some b =>
            let bval := ComplexValue b in
            if cmplx_IsNaN bval then Next (complex (FloatValue b) 0%float)
            else Return (Error "beta not a number")
        | None => Next bval
        end in st;
      let uplo := Uplo params in
      let trans := Trans params in
      slice Aa := slice_from Aa (OffsetA ind) in st;
      slice Ca := slice_from Ca (OffsetC ind) in st;
      invoke (zsyrk uplo trans (N ind) (K ind) aval Aa (LDa ind) bval
                    Ca (LDc ind))
             C (OffsetC ind) st
  end.

Definition Herk (A C : Matrix) (alpha beta : option Matrix) (opts : Opts)
    (st : Store) : Outcome :=
  try c := checked fsyrk A None (Some C) opts in st;
  let '(params, ind) := c in
  if negb (EqualTypes [A; C]) then mkOutcome not_same_type [] st else
  match mtype A with
  | FloatMatrix =>
      let Aa := FloatArray st A in
      let Ca := FloatArray st C in
      let aval := match alpha with Some a => FloatValue a | None => 1%float end in
      let bval := match beta with Some b => FloatValue b | None => 0%float end in
      if IsNaN aval || IsNaN bval then
        mkOutcome (Error "alpha or beta not a number") [] st
      else
      let uplo := Uplo params in
      let trans := Trans params in
      slice Aa := slice_from Aa (OffsetA ind) in st;
      slice Ca := slice_from Ca (OffsetC ind) in st;
      invoke (dsyrk uplo trans (N ind) (K ind) aval Aa (LDa ind) bval
                    Ca (LDc ind))
             C (OffsetC ind) st
  | ComplexMatrix =>
      let Aa := ComplexArray st A in
      let Ca := ComplexArray st C in
      let aval := complex 1%float 0%float in
      try aval :=
        match alpha with
        | Some a =>
            let aval := ComplexValue a in
            if cmplx_IsNaN aval then Next (complex (FloatValue a) 0%float)
            else Return (Error "alpha not a real or complex number")
        | None => Next aval
        end in st;
      let bval := 0%float in
      try bval :=
        match beta with
        | Some b =>
            let bval := FloatValue b in
            if IsNaN bval then Return (Error "beta not a real number")
            else Next bval
        | None => Next bval
        end in st;
      let uplo := Uplo params in
      let trans := Trans params in
      slice Aa := slice_from Aa (OffsetA ind) in st;
      slice Ca := slice_from Ca (OffsetC ind) in st;
      invoke (zherk uplo trans (N ind) (K ind) aval Aa (LDa ind) bval
                    Ca (LDc ind))
             C (OffsetC ind) st
  end.

Definition Syr2k (A B C : Matrix) (alpha beta : option Matrix) (opts : Opts)
    (st : Store) : Outcome :=
  try c := checked fsyr2k A (Some B) (Some C) opts in st;
  let '(params, ind) := c in
  if negb (EqualTypes [A; B; C]) then mkOutcome not_same_type [] st else
  match mtype A with
  | FloatMatrix =>
      let Aa := FloatArray st A in
      let Ba := FloatArray st B in
      let Ca := FloatArray st C in
      let aval := match alpha with Some a => FloatValue a | None => 1%float end in
      let bval := match beta with Some b => FloatValue b | None => 0%float end in
      if IsNaN aval || IsNaN bval then
        mkOutcome (Error "alpha or beta not a number") [] st
      else
      let uplo := Uplo params in
      let trans := Trans params in
      slice Aa := slice_from Aa (OffsetA ind) in st;
      slice Ba := slice_from Ba (OffsetB ind) in st;
      slice Ca := slice_from Ca (OffsetC ind) in st;
      invoke (dsyr2k uplo trans (N ind) (K ind) aval Aa (LDa ind)
                     Ba (LDb ind) bval Ca (LDc ind))
             C (OffsetC ind) st
  | ComplexMatrix =>
      let Aa := ComplexArray st A in
      let Ba := ComplexArray st B in
      let Ca := ComplexArray st C in
      let aval := complex 1%float 0%float in
      try aval :=
        match alpha with
        | Some a =>
            let aval := ComplexValue a in
            if cmplx_IsNaN aval then
              if negb (IsNaN (FloatValue a)) then
                Next (complex (FloatValue a) 0%float)
              else Return (Error "alpha not a real or complex number")
            else Next aval
        | None => Next aval
        end in st;
      let bval := complex 0%float 0%float in
      try bval :=
        match beta with
        | Some b =>
            let bval := ComplexValue b in
            if cmplx_IsNaN bval then
              if negb (IsNaN (FloatValue b)) then
                Next (complex (FloatValue b) 0%float)
              else Return (Error "beta not a real or complex number")
            else Next bval
        | None => Next bval
        end in st;
      let uplo := Uplo params in
      let trans := Trans params in
      slice Aa := slice_from Aa (OffsetA ind) in st;
      slice Ba := slice_from Ba (OffsetB ind) in st;
      slice Ca := slice_from Ca (OffsetC ind) in st;
      invoke (zsyr2k uplo trans (N ind) (K ind) aval Aa (LDa ind)
                     Ba (LDb ind) bval Ca (LDc ind))
             C (OffsetC ind) st
  end.

Definition Her2k (A B C : Matrix) (alpha beta : option Matrix) (opts : Opts)
    (st : Store) : Outcome :=
  try c := checked fsyr2k A (Some B) (Some C) opts in st;
  let '(params, ind) := c in
  if negb (EqualTypes [A; B; C]) then mkOutcome not_same_type [] st else
  match mtype A with
  | FloatMatrix =>
      let Aa := FloatArray st A in
      let Ba := FloatArray st B in
      let Ca := FloatArray st C in
      let aval := match alpha with Some a => FloatValue a | None => 1%float end in
      let bval := match beta with Some b => FloatValue b | None => 0%float end in
      if IsNaN aval || IsNaN bval then
        mkOutcome (Error "alpha or beta not a number") [] st
      else
      let uplo := Uplo params in
      let trans := Trans params in
      slice Aa := slice_from Aa (OffsetA ind) in st;
      slice Ba := slice_from Ba (OffsetB ind) in st;
      slice Ca := slice_from Ca (OffsetC ind) in st;
      invoke (dsyr2k uplo trans (N ind) (K ind) aval Aa (LDa ind)
                     Ba (LDb ind) bval Ca (LDc ind))
             C (OffsetC ind) st
  | ComplexMatrix =>
      let Aa := ComplexArray st A in
      let Ba := ComplexArray st B in
      let Ca := ComplexArray st C in
      let aval := complex 1%float 0%float in
      try aval :=
        match alpha with
        | Some a =>
            let aval := ComplexValue a in
            if cmplx_IsNaN aval then Next (complex (FloatValue a) 0%float)
            else Return (Error "alpha not a number")
        | None => Next aval
        end in st;
      let bval := 0%float in
      try bval :=
        match beta with
        | Some b =>
            let bval := FloatValue b in
            if IsNaN bval then Return (Error "beta not a real number")
            else Next bval
        | None => Next bval
        end in st;
      let uplo := Uplo params in
      let trans := Trans params in
      slice Aa := slice_from Aa (OffsetA ind) in st;
      slice Ba := slice_from Ba (OffsetB ind) in st;
      slice Ca := slice_from Ca (OffsetC ind) in st;
      invoke (zher2k uplo trans (N ind) (K ind) aval Aa (LDa ind)
                     Ba (LDb ind) bval Ca (LDc ind))
             C (OffsetC ind) st
  end.

Definition Trmm (A B : Matrix) (alpha : option Matrix) (opts : Opts)
    (st : Store) : Outcome :=
  try c := checked ftrmm A (Some B) None opts in st;
  let '(params, ind) := c in
  if negb (EqualTypes [A; B]) then mkOutcome not_same_type [] st else
  match mtype A with
  | FloatMatrix =>
      let Aa := FloatArray st A in
      let Ba := FloatArray st B in
      let aval := match alpha with Some a => FloatValue a | None => 1%float end in
      if IsNaN aval then mkOutcome (Error "alpha  not a number") [] st else
      let uplo := Uplo params in
      let transA := TransA params in
      let side := Side params in
      let diag := Diag params in
      slice Aa := slice_from Aa (OffsetA ind) in st;
      slice Ba := slice_from Ba (OffsetB ind) in st;
      invoke (dtrmm side uplo transA diag (M ind) (N ind) aval
                    Aa (LDa ind) Ba (LDb ind))
             B (OffsetB ind) st
  | ComplexMatrix =>
      let Aa := ComplexArray st A in
      let Ba := ComplexArray st B in
      let aval := complex 1%float 0%float in
      try aval :=
        match alpha with
        | Some a =>
            let aval := ComplexValue a in
            if cmplx_IsNaN aval then Next (complex (FloatValue a) 0%float)
            else Return (Error "alpha  not a number")
        | None => Next aval
        end in st;
      let uplo := Uplo params in
      let transA := TransA params in
      let side := Side params in
      let diag := Diag params in
      slice Aa := slice_from Aa (OffsetA ind) in st;
      slice Ba := slice_from Ba (OffsetB ind) in st;
      invoke (ztrmm side uplo transA diag (M ind) (N ind) aval
                    Aa (LDa ind) Ba (LDb ind))
             B (OffsetB ind) st
  end.

Definition Trsm (A B : Matrix) (alpha : option Matrix) (opts : Opts)
    (st : Store) : Outcome :=
  try c := checked ftrsm A (Some B) None opts in st;
  let '(params, ind) := c in
  if negb (EqualTypes [A; B]) then mkOutcome not_same_type [] st else
  match mtype A with
  | FloatMatrix =>
      let Aa := FloatArray st A in
      let Ba := FloatArray st B in
      try aval :=
        match alpha with
        | Some a => Next (FloatValue a)
        | None => Return nil_panic
        end in st;
      if IsNaN aval then
        mkOutcome (Error "alpha or beta not a number") [] st
      else
      let uplo := Uplo params in
      let transA := TransA params in
      let side := Side params in
      let diag := Diag params in
      slice Aa := slice_from Aa (OffsetA ind) in st;
      slice Ba := slice_from Ba (OffsetB ind) in st;
      invoke (dtrsm side uplo transA diag (M ind) (N ind) aval
                    Aa (LDa ind) Ba (LDb ind))
             B (OffsetB ind) st
  | ComplexMatrix =>
      let Aa := ComplexArray st A in
      let Ba := ComplexArray st B in
      let aval := complex 1%float 0%float in
      try aval :=
        match alpha with
        | Some a =>
            let aval := ComplexValue a in
            if cmplx_IsNaN aval then Next (complex (FloatValue a) 0%float)
            else Return (Error "alpha  not a number")
        | None => Next aval
        end in st;
      let uplo := Uplo params in
      let transA := TransA params in
      let side := Side params in
      let diag := Diag params in
      slice Aa := slice_from Aa (OffsetA ind) in st;
      slice Ba := slice_from Ba (OffsetB ind) in st;
      invoke (ztrsm side uplo transA diag (M ind) (N ind) aval
                    Aa (LDa ind) Ba (LDb ind))
             B (OffsetB ind) st
  end.

End Level3.

(** ** What a call hands to the kernel, and where a call stops *)




Definition is_zhemm (c : KernelCall) : bool :=
  match c with
  | zhemm _ _ _ _ _ _ _ _ _ _ _ _ => true
  | _ => false
  end.

(** The zero-dimension return of [Gemm] and [Symm]. *)
Definition zero_m_or_n (ind : IndexOpts) : bool := (M ind =? 0) || (N ind =? 0).

(** The functions without such a return. *)
Definition no_guard (ind : IndexOpts) : bool := false.

(** The result of a level 3 call that gets no further than the type
    check, when the operands are not of one type: the error of the option
    parser or of the check, nil from the zero-dimension return, or the
    type error. *)
Definition stops_before_kernel (f : Flow (Parameters * IndexOpts))
    (guard : IndexOpts -> bool) : Result :=
  match f with
  | Return r => r
  | Next (_, ind) => if guard ind then Nil else not_same_type
  end.

(** The same for Gesv: the result of resolution (an error, or nil from the
    zero-dimension return), the error of a bounds check, or the type
    error. *)
Definition Gesv_stops_before_kernel (A B : Matrix) (ipiv : option loc)
    (ind : IndexOpts) (st : Store) : Result :=
  match Gesv_resolve A B ind with
  | Return r => r
  | Next c =>
      match Gesv_bounds A B ipiv st c with
      | Return r => r
      | Next _ => Error "Gesv: arguments not of same type"
      end
  end.


(** A real scalar argument, or its default when it is nil. *)
Definition real_scalar (s : option Matrix) (default : float64) : float64 :=
  match s with Some a => FloatValue a | None => default end.
Arguments real_scalar s default%_float_scope.

(** ** The check, from the specification *)

(** Modelled from the spec: the parts of [check_level3_func] (package
    blas, not among the sources), after sections 4.2 and 4.3. *)
Module Spec.

Definition transposed (p : ParamValue) : bool := negb (bool_decide (p = PNoTrans)).
Definition on_right (pars : Parameters) : bool := bool_decide (Side pars = PRight).
Definition unset_dim (d : Z) : bool := d <? 0.

(** Shape resolver (section 4.2): the default of each dimension of a
    family, from the operand shapes and the mode flags. *)
Definition default_m (fn : funcNum) (A : Matrix) (B : option Matrix)
    (pars : Parameters) (m : Z) : Z :=
  if negb (unset_dim m) then m else
  match fn, B with
  | fgemm, _ => if transposed (TransA pars) then Cols A else Rows A
  | fsymm, Some B => Rows B
  | (ftrmm | ftrsm), Some B => if on_right pars then Rows B else Rows A
  | _, _ => m
  end.

Definition default_n (fn : funcNum) (A : Matrix) (B : option Matrix)
    (pars : Parameters) (n : Z) : Z :=
  if negb (unset_dim n) then n else
  match fn, B with
  | fgemm, Some B => if transposed (TransB pars) then Rows B else Cols B
  | fsymm, Some B => Cols B
  | (fsyrk | fsyr2k), _ => if transposed (Trans pars) then Cols A else Rows A
  | (ftrmm | ftrsm), Some B => if on_right pars then Rows A else Cols B
  | _, _ => n
  end.

Definition default_k (fn : funcNum) (A : Matrix) (pars : Parameters) (k : Z) : Z :=
  if negb (unset_dim k) then k else
  match fn with
  | fgemm => if transposed (TransA pars) then Rows A else Cols A
  | fsyrk | fsyr2k => if transposed (Trans pars) then Rows A else Cols A
  | _ => k
  end.

(** The stored shape (first dimension, last dimension) of each operand
    under the active branch. *)
Definition shape_A (fn : funcNum) (pars : Parameters) (m n k : Z) : Z * Z :=
  match fn with
  | fgemm => if transposed (TransA pars) then (k, m) else (m, k)
  | fsymm | ftrmm | ftrsm => if on_right pars then (n, n) else (m, m)
  | fsyrk | fsyr2k => if transposed (Trans pars) then (k, n) else (n, k)
  end.

Definition shape_B (fn : funcNum) (pars : Parameters) (m n k : Z) : Z * Z :=
  match fn with
  | fgemm => if transposed (TransB pars) then (n, k) else (k, n)
  | fsyr2k => if transposed (Trans pars) then (k, n) else (n, k)
  | _ => (m, n)
  end.

Definition shape_C (fn : funcNum) (m n : Z) : Z * Z :=
  match fn with
  | fsyrk | fsyr2k => (n, n)
  | _ => (m, n)
  end.

(** The triangular or symmetric operand must be square when a dimension is
    derived from it. *)
Definition shape_ok (fn : funcNum) (A : Matrix) (ind : IndexOpts) : bool :=
  match fn with
  | fsymm | ftrmm | ftrsm =>
      negb (unset_dim (M ind) || unset_dim (N ind)) || (Rows A =? Cols A)
  | _ => true
  end.

(** Default leading stride: [max(1, rows)] of the operand. *)
Definition default_ld (X : option Matrix) (ld : Z) : Z :=
  match X with
  | Some X => if ld =? 0 then Z.max 1 (Rows X) else ld
  | None => ld
  end.

(** Bounds validator (section 4.3), one operand at a time. *)
Definition stride_ok (X : option Matrix) (ld : Z) (shape : Z * Z) : bool :=
  match X with
  | Some _ => Z.max 1 (fst shape) <=? ld
  | None => true
  end.

Definition offset_ok (X : option Matrix) (off : Z) : bool :=
  match X with
  | Some _ => 0 <=? off
  | None => true
  end.

Definition size_ok (X : option Matrix) (off ld : Z) (shape : Z * Z) : bool :=
  match X with
  | Some X => off + (snd shape - 1) * ld + fst shape <=? NumElements X
  | None => true
  end.

End Spec.

(** Modelled from the spec: [check_level3_func] (package blas, not among
    the sources).  Sections 4.2 and 4.3: dimensions below zero and strides
    equal to zero are derived from the operands; then, in this order, the
    strides [ldA], [ldB], [ldC] must reach [max(1, first dimension)], the
    offsets must not be negative, and each operand's capacity must reach
    [offset + (last_dim - 1) * stride + first_dim].  The first violation
    is reported. *)
Definition check_level3_spec (ind : IndexOpts) (fn : funcNum) (A : Matrix)
    (B C : option Matrix) (pars : Parameters) : IndexOpts * option string :=
  let m := Spec.default_m fn A B pars (M ind) in
  let n := Spec.default_n fn A B pars (N ind) in
  let k := Spec.default_k fn A pars (K ind) in
  let lda := Spec.default_ld (Some A) (LDa ind) in
  let ldb := Spec.default_ld B (LDb ind) in
  let ldc := Spec.default_ld C (LDc ind) in
  let sA := Spec.shape_A fn pars m n k in
  let sB := Spec.shape_B fn pars m n k in
  let sC := Spec.shape_C fn m n in
  let ind' := mkIndexOpts m n k (Nrhs ind) lda ldb ldc
                          (OffsetA ind) (OffsetB ind) (OffsetC ind) in
  (ind',
   if negb (Spec.shape_ok fn A ind) then Some "shape error"
   else if negb (Spec.stride_ok (Some A) lda sA) then Some "stride error: ldA"
   else if negb (Spec.stride_ok B ldb sB) then Some "stride error: ldB"
   else if negb (Spec.stride_ok C ldc sC) then Some "stride error: ldC"
   else if negb (Spec.offset_ok (Some A) (OffsetA ind)) then Some "offset error: offsetA"
   else if negb (Spec.offset_ok B (OffsetB ind)) then Some "offset error: offsetB"
   else if negb (Spec.offset_ok C (OffsetC ind)) then Some "offset error: offsetC"
   else if negb (Spec.size_ok (Some A) (OffsetA ind) lda sA) then Some "size error: sizeA"
   else if negb (Spec.size_ok B (OffsetB ind) ldb sB) then Some "size error: sizeB"
   else if negb (Spec.size_ok C (OffsetC ind) ldc sC) then Some "size error: sizeC"
   else None).

(** ** Resolved dimensions and option sets of Gesv *)

(** The dimensions lines 47-55 resolve to (when [A] passes the squareness
    test of line 49). *)
Definition Gesv_N (A : Matrix) (ind : IndexOpts) : Z :=
  if N ind <? 0 then Rows A else N ind.

Definition Gesv_Nrhs (B : Matrix) (ind : IndexOpts) : Z :=
  if Nrhs ind <? 0 then Cols B else Nrhs ind.

(** The strides lines 59-72 resolve to, and the row strides of the size
    checks. *)
Definition Gesv_LDa (A : Matrix) (ind : IndexOpts) : Z :=
  if LDa ind =? 0 then GoInt.max 1 (LeadingIndex A) else LDa ind.

Definition Gesv_LDb (B : Matrix) (ind : IndexOpts) : Z :=
  if LDb ind =? 0 then GoInt.max 1 (LeadingIndex B) else LDb ind.

Definition Gesv_arows (A : Matrix) (ind : IndexOpts) : Z :=
  if LDa ind =? 0 then GoInt.max 1 (Rows A) else LDa ind.

Definition Gesv_brows (B : Matrix) (ind : IndexOpts) : Z :=
  if LDb ind =? 0 then GoInt.max 1 (Rows B) else LDb ind.

Definition Gesv_config (A B : Matrix) (ind : IndexOpts) : GesvConfig :=
  mkGesvConfig
    (mkIndexOpts (M ind) (Gesv_N A ind) (K ind) (Gesv_Nrhs B ind)
                 (Gesv_LDa A ind) (Gesv_LDb B ind) (LDc ind)
                 (OffsetA ind) (OffsetB ind) (OffsetC ind))
    (Gesv_arows A ind) (Gesv_brows B ind).

(** Every option unset: dimensions negative, strides and offsets zero. *)
Definition Gesv_unset : IndexOpts :=
  mkIndexOpts (-1) (-1) (-1) (-1) 0 0 0 0 0 0.

(** The configuration the unset call resolves to, supplied explicitly. *)
Definition Gesv_explicit (A B : Matrix) : IndexOpts :=
  mkIndexOpts (-1) (Rows A) (-1) (Cols B)
              (GoInt.max 1 (LeadingIndex A)) (GoInt.max 1 (LeadingIndex B)) 0
              0 0 0.

(** ** Concrete operands, stores and kernel doubles *)

Module Fixture.

(** A real and a complex scalar: singleton operands.  [Syr2k] falls back
    to [FloatValue] exactly when [ComplexValue] is NaN, so a real scalar
    has a NaN [ComplexValue], and a complex one a NaN [FloatValue]. *)
Definition FScalar (v : float64) (l : loc) : Matrix :=
  mkMatrix FloatMatrix 1 1 1 1 v cmplx_NaN l.

Definition CScalar (c : complex128) (l : loc) : Matrix :=
  mkMatrix ComplexMatrix 1 1 1 1 NaN c l.

(** Dense operands with [rows * cols] elements and stride [rows]. *)
Definition FMat (rows cols : Z) (l : loc) : Matrix :=
  mkMatrix FloatMatrix rows cols rows (rows * cols) NaN cmplx_NaN l.

Definition CMat (rows cols : Z) (l : loc) : Matrix :=
  mkMatrix ComplexMatrix rows cols rows (rows * cols) NaN cmplx_NaN l.

(** A [rows] by [cols] real view of an array with [ld] rows per column. *)
Definition FView (rows cols ld size : Z) (l : loc) : Matrix :=
  mkMatrix FloatMatrix rows cols ld size NaN cmplx_NaN l.

(** A kernel double that leaves every buffer as it found it and reports
    success. *)
Definition idle_kernel (c : KernelCall) : KernelOut :=
  match c with
  | dgemm _ _ _ _ _ _ _ _ _ _ _ Ca _ | dsymm _ _ _ _ _ _ _ _ _ _ Ca _
  | dsyrk _ _ _ _ _ _ _ _ Ca _ | dsyr2k _ _ _ _ _ _ _ _ _ _ Ca _ =>
      mkKernelOut (FloatBuf Ca) (FloatBuf []) [] 0
  | zgemm _ _ _ _ _ _ _ _ _ _ _ Ca _ | zhemm _ _ _ _ _ _ _ _ _ _ Ca _
  | zsyrk _ _ _ _ _ _ _ _ Ca _ | zherk _ _ _ _ _ _ _ _ Ca _
  | zsyr2k _ _ _ _ _ _ _ _ _ _ Ca _ | zher2k _ _ _ _ _ _ _ _ _ _ Ca _ =>
      mkKernelOut (ComplexBuf Ca) (ComplexBuf []) [] 0
  | dtrmm _ _ _ _ _ _ _ _ _ Ba _ | dtrsm _ _ _ _ _ _ _ _ _ Ba _ =>
      mkKernelOut (FloatBuf Ba) (FloatBuf []) [] 0
  | ztrmm _ _ _ _ _ _ _ _ _ Ba _ | ztrsm _ _ _ _ _ _ _ _ _ Ba _ =>
      mkKernelOut (ComplexBuf Ba) (ComplexBuf []) [] 0
  | dgesv _ _ Aa _ piv Ba _ => mkKernelOut (FloatBuf Ba) (FloatBuf Aa) piv 0
  | zgesv _ _ Aa _ piv Ba _ => mkKernelOut (ComplexBuf Ba) (ComplexBuf Aa) piv 0
  end.


(** A double for [dgesv] with the canned answer for the system
    [[2,1],[1,1]] x = [3,2]: the LU factors in [A], the pivots in [ipiv]
    and the solution [1,1] in [B]. *)
Definition solving_kernel (c : KernelCall) : KernelOut :=
  match c with
  | dgesv _ _ _ _ _ _ _ =>
      mkKernelOut (FloatBuf [1; 1]%float)
                  (FloatBuf [2; 0.5; 1; 0.5]%float) [1; 2] 0
  | _ => idle_kernel c
  end.

Definition locA : loc := 1%positive.
Definition locB : loc := 2%positive.
Definition locC : loc := 3%positive.
Definition loc_alpha : loc := 4%positive.
Definition loc_piv : loc := 5%positive.
Definition loc_beta : loc := 6%positive.
Definition loc_nan : loc := 7%positive.

(** The store of the 2 by 2 system. *)
Definition system_store : Store :=
  <[locA := FloatBuf [2; 1; 1; 1]%float]>
    (<[locB := FloatBuf [3; 2]%float]> ∅).

(** 1 by 1 operands of each type. *)
Definition real_store : Store :=
  <[locA := FloatBuf [2%float]]>
    (<[locB := FloatBuf [3%float]]> (<[locC := FloatBuf [5%float]]> ∅)).

Definition complex_store : Store :=
  <[locA := ComplexBuf [complex 2 0]]>
    (<[locB := ComplexBuf [complex 3 0]]>
       (<[locC := ComplexBuf [complex 5 0]]>
          (<[loc_alpha := ComplexBuf [complex 2 0]]>
             (<[loc_beta := FloatBuf [2%float]]>
                (<[loc_nan := ComplexBuf [cmplx_NaN]]> ∅))))).

Definition default_params : Parameters :=
  mkParameters PNoTrans PNoTrans PNoTrans PLower PNonUnit PLeft.

Definition unset_index : IndexOpts :=
  mkIndexOpts (-1) (-1) (-1) (-1) 0 0 0 0 0 0.

Definition no_opts : Opts := mkOpts (inl default_params) unset_index.





(** 1 by 1 operands of each type, and complex scalars. *)
Definition rA : Matrix := FMat 1 1 locA.
Definition rB : Matrix := FMat 1 1 locB.
Definition rC : Matrix := FMat 1 1 locC.
Definition zA : Matrix := CMat 1 1 locA.
Definition zB : Matrix := CMat 1 1 locB.
Definition zC : Matrix := CMat 1 1 locC.
Definition ztwo : Matrix := CScalar (complex 2 0) loc_alpha.
Definition znan : Matrix := CScalar cmplx_NaN loc_nan.
Definition beta_two : Matrix := FScalar 2%float loc_beta.

(** A store with a real [A] and [C] and a complex [B]. *)
Definition mixed_store : Store :=
  <[locA := FloatBuf [2%float]]>
    (<[locB := ComplexBuf [complex 3%float 0%float]]>
       (<[locC := FloatBuf [5%float]]> ∅)).

Definition mixed_rhs_store : Store :=
  <[locA := FloatBuf [2; 1; 1; 1]%float]> (<[locB := ComplexBuf []]> ∅).


(** The 2 by 2 system and its right-hand side. *)
Definition A22 : Matrix := FMat 2 2 locA.
Definition B21 : Matrix := FMat 2 1 locB.

(** A complex right-hand side with two rows and no column. *)
Definition B20c : Matrix := CMat 2 0 locB.

(** Options with strides below [n = 2] and negative offsets. *)
Definition bad_index : IndexOpts :=
  mkIndexOpts (-1) (-1) (-1) (-1) 1 1 0 (-1) (-1) 0.

(** A 2 by 2 view into an array of three rows and two columns. *)
Definition A22_view : Matrix := FView 2 2 3 6 locA.

(** The default options with [ldB = 3]. *)
Definition ldb3_index : IndexOpts :=
  mkIndexOpts (-1) (-1) (-1) (-1) 0 3 0 0 0 0.

(** The default options with [ldA = 1]. *)
Definition lda1_index : IndexOpts :=
  mkIndexOpts (-1) (-1) (-1) (-1) 1 0 0 0 0 0.

(** A real right-hand side with two rows and no column, and a store for
    it. *)
Definition B20 : Matrix := FMat 2 0 locB.

Definition empty_rhs_store : Store :=
  <[locA := FloatBuf [2; 1; 1; 1]%float]> (<[locB := FloatBuf []]> ∅).

End Fixture.

(** The pivot argument of the kernel: the caller's array, or the [n] zeros
    of line 95. *)
Definition Gesv_pivots (st : Store) (ipiv : option loc) (n : Z) : list Z :=
  match ipiv with
  | Some p => int32_slice st (Some p)
  | None => replicate (Z.to_nat n) 0
  end.

(** The kernel call of lines 99-116 for slices that are in range: the
    resolved dimensions and strides, [ldA * ldB] elements of [A] from
    [offsetA], the pivots, and [B] from [offsetB]. *)
Definition Gesv_kernel_call (A B : Matrix) (ipiv : option loc) (st : Store)
    (c : GesvConfig) : KernelCall :=
  let ind := gind c in
  let hiA := GoInt.mul (LDa ind) (LDb ind) in
  match mtype A with
  | FloatMatrix =>
      dgesv (N ind) (Nrhs ind)
            (take (Z.to_nat hiA) (drop (Z.to_nat (OffsetA ind)) (FloatArray st A)))
            (LDa ind) (Gesv_pivots st ipiv (N ind))
            (drop (Z.to_nat (OffsetB ind)) (FloatArray st B)) (LDb ind)
  | ComplexMatrix =>
      zgesv (N ind) (Nrhs ind)
            (take (Z.to_nat hiA) (drop (Z.to_nat (OffsetA ind)) (ComplexArray st A)))
            (LDa ind) (Gesv_pivots st ipiv (N ind))
            (drop (Z.to_nat (OffsetB ind)) (ComplexArray st B)) (LDb ind)
  end.

(** A dense operand: [rows] by [cols], stride [rows], stored with its
    [rows * cols] elements. *)
Definition dense (st : Store) (X : Matrix) (rows cols : Z) : Prop :=
  Rows X = rows /\ Cols X = cols /\ LeadingIndex X = rows /\
  NumElements X = rows * cols /\ well_stored st X.

(** ** Statements about level 3 calls *)

(** A call either made no kernel call and left the store alone, or made
    the one kernel call of its last statement, the offset of the output
    operand [X] lying inside its array. *)
Definition level3_outcome (kernel : KernelCall -> KernelOut) (st : Store)
    (X : Matrix) (off : IndexOpts -> Z) (f : Flow (Parameters * IndexOpts))
    (out : Outcome) : Prop :=
  (exists r, r <> Nil /\ out = mkOutcome r [] st) \/
  (exists params ind, f = Next (params, ind) /\ out = mkOutcome Nil [] st) \/
  (exists params ind call,
     f = Next (params, ind) /\
     0 <= off ind <= buf_len st (elems X) /\
     out = invoke kernel call X (off ind) st).

(** Whatever is not a success made no kernel call and changed nothing, and
    no call makes more than one kernel call. *)
Definition quiet_failure (st : Store) (out : Outcome) : Prop :=
  (ret out <> Nil -> calls out = [] /\ heap out = st) /\
  (length (calls out) <= 1)%nat.



(** The scalar arguments of a kernel call. *)
Inductive Scalar :=
| RealS (x : float64)
| ComplexS (z : complex128).

Definition call_alpha (c : KernelCall) : option Scalar :=
  match c with
  | dgemm _ _ _ _ _ a _ _ _ _ _ _ _ | dsymm _ _ _ _ a _ _ _ _ _ _ _
  | dsyrk _ _ _ _ a _ _ _ _ _ | dsyr2k _ _ _ _ a _ _ _ _ _ _ _
  | dtrmm _ _ _ _ _ _ a _ _ _ _ | dtrsm _ _ _ _ _ _ a _ _ _ _ =>
      Some (RealS a)
  | zgemm _ _ _ _ _ a _ _ _ _ _ _ _ | zhemm _ _ _ _ a _ _ _ _ _ _ _
  | zsyrk _ _ _ _ a _ _ _ _ _ | zherk _ _ _ _ a _ _ _ _ _
  | zsyr2k _ _ _ _ a _ _ _ _ _ _ _ | zher2k _ _ _ _ a _ _ _ _ _ _ _
  | ztrmm _ _ _ _ _ _ a _ _ _ _ | ztrsm _ _ _ _ _ _ a _ _ _ _ =>
      Some (ComplexS a)
  | dgesv _ _ _ _ _ _ _ | zgesv _ _ _ _ _ _ _ => None
  end.

Definition call_beta (c : KernelCall) : option Scalar :=
  match c with
  | dgemm _ _ _ _ _ _ _ _ _ _ b _ _ | dsymm _ _ _ _ _ _ _ _ _ b _ _
  | dsyrk _ _ _ _ _ _ _ b _ _ | dsyr2k _ _ _ _ _ _ _ _ _ b _ _
  | zherk _ _ _ _ _ _ _ b _ _ | zher2k _ _ _ _ _ _ _ _ _ b _ _ =>
      Some (RealS b)
  | zgemm _ _ _ _ _ _ _ _ _ _ b _ _ | zhemm _ _ _ _ _ _ _ _ _ b _ _
  | zsyrk _ _ _ _ _ _ _ b _ _ | zsyr2k _ _ _ _ _ _ _ _ _ b _ _ =>
      Some (ComplexS b)
  | _ => None
  end.

(** ** Statements about the scalars of level 3 calls *)

(** The call has come to its scalars: the options parsed, the check
    passed, the zero-dimension return (where the function has one) was not
    taken, and the operands are of one type. *)
Definition at_scalars (f : Flow (Parameters * IndexOpts))
    (guard : IndexOpts -> bool) (same_type : bool) : Prop :=
  exists params ind,
    f = Next (params, ind) /\ guard ind = false /\ same_type = true.

(** The call went on past its scalars with [a] and [b]: it made one kernel
    call with them and returned nil, unless an offset lay outside an
    array. *)
Definition ran_with (st : Store) (out : Outcome) (a : Scalar)
    (b : option Scalar) : Prop :=
  out = mkOutcome slice_panic [] st \/
  (ret out = Nil /\
   exists call, calls out = [call] /\
                call_alpha call = Some a /\ call_beta call = b).

(** The two ways a scalar test ends: the error [msg] before the kernel, or
    the call goes on with [a] and [b]. *)
Definition scalar_verdict (st : Store) (rejected : bool) (msg : string)
    (a : Scalar) (b : option Scalar) (out : Outcome) : Prop :=
  if rejected then out = mkOutcome (Error msg) [] st
  else ran_with st out a b.

(** A scalar operand read as a complex number: its complex value, or its
    real value when the complex value is NaN; and the scalars that are a
    number in neither reading. *)
Definition complex_scalar (s : option Matrix) (default : complex128)
    : complex128 :=
  match s with
  | Some a =>
      if cmplx_IsNaN (ComplexValue a) then complex (FloatValue a) 0
      else ComplexValue a
  | None => default
  end.

Definition not_a_number (s : option Matrix) : bool :=
  match s with
  | Some a => cmplx_IsNaN (ComplexValue a) && IsNaN (FloatValue a)
  | None => false
  end.

(** One and zero in the domain of an operand. *)
Definition one_of (t : MatrixType) : Scalar :=
  match t with
  | FloatMatrix => RealS 1%float
  | ComplexMatrix => ComplexS (complex 1 0)
  end.

Definition zero_of (t : MatrixType) : Scalar :=
  match t with
  | FloatMatrix => RealS 0%float
  | ComplexMatrix => ComplexS (complex 0 0)
  end.

(** ** Statements about the operands of level 3 calls *)

(** The array and stride arguments of a kernel call, in the order [A],
    [B], [C]. *)
Definition call_operands (c : KernelCall) : list (Buf * Z) :=
  match c with
  | dgemm _ _ _ _ _ _ Aa lda Ba ldb _ Ca ldc
  | dsymm _ _ _ _ _ Aa lda Ba ldb _ Ca ldc
  | dsyr2k _ _ _ _ _ Aa lda Ba ldb _ Ca ldc =>
      [(FloatBuf Aa, lda); (FloatBuf Ba, ldb); (FloatBuf Ca, ldc)]
  | zgemm _ _ _ _ _ _ Aa lda Ba ldb _ Ca ldc
  | zhemm _ _ _ _ _ Aa lda Ba ldb _ Ca ldc
  | zsyr2k _ _ _ _ _ Aa lda Ba ldb _ Ca ldc
  | zher2k _ _ _ _ _ Aa lda Ba ldb _ Ca ldc =>
      [(ComplexBuf Aa, lda); (ComplexBuf Ba, ldb); (ComplexBuf Ca, ldc)]
  | dsyrk _ _ _ _ _ Aa lda _ Ca ldc =>
      [(FloatBuf Aa, lda); (FloatBuf Ca, ldc)]
  | zsyrk _ _ _ _ _ Aa lda _ Ca ldc | zherk _ _ _ _ _ Aa lda _ Ca ldc =>
      [(ComplexBuf Aa, lda); (ComplexBuf Ca, ldc)]
  | dtrmm _ _ _ _ _ _ _ Aa lda Ba ldb | dtrsm _ _ _ _ _ _ _ Aa lda Ba ldb
  | dgesv _ _ Aa lda _ Ba ldb =>
      [(FloatBuf Aa, lda); (FloatBuf Ba, ldb)]
  | ztrmm _ _ _ _ _ _ _ Aa lda Ba ldb | ztrsm _ _ _ _ _ _ _ Aa lda Ba ldb
  | zgesv _ _ Aa lda _ Ba ldb =>
      [(ComplexBuf Aa, lda); (ComplexBuf Ba, ldb)]
  end.

(** An operand of a call: the matrix, its resolved offset and its resolved
    stride. *)
Definition Operand : Type := Matrix * Z * Z.

(** The offset lies inside the array the branch for type [t] reads. *)
Definition in_array (st : Store) (t : MatrixType) (op : Operand) : Prop :=
  let '(X, off, _) := op in
  match t with
  | FloatMatrix => 0 <= off <= len (FloatArray st X)
  | ComplexMatrix => 0 <= off <= len (ComplexArray st X)
  end.

(** The array from the offset on, with the stride. *)
Definition from_offset (st : Store) (t : MatrixType) (op : Operand) : Buf * Z :=
  let '(X, off, ld) := op in
  (match t with
   | FloatMatrix => FloatBuf (drop (Z.to_nat off) (FloatArray st X))
   | ComplexMatrix => ComplexBuf (drop (Z.to_nat off) (ComplexArray st X))
   end, ld).

(** A kernel call was made only with every offset inside its array, and
    received each array from its offset on, with its stride; and the slice
    panic means that an offset lay outside its array. *)
Definition operand_slices (st : Store) (t : MatrixType) (ops : list Operand)
    (out : Outcome) : Prop :=
  (forall call, calls out = [call] ->
     Forall (in_array st t) ops /\
     call_operands call = map (from_offset st t) ops) /\
  (ret out = slice_panic -> Exists (fun op => ~ in_array st t op) ops).

(** ** Further operands, stores and options *)

Module Sample.

(** A real matrix of two rows and three columns over six elements, the
    2 by 1 right-hand side, and the options with [n = 2] supplied. *)
Definition A23 : Matrix := Fixture.FMat 2 3 Fixture.locA.

Definition wide_store : Store :=
  <[Fixture.locA := FloatBuf [2; 1; 1; 1; 7; 7]%float]>
    (<[Fixture.locB := FloatBuf [3; 2]%float]> ∅).

Definition n2_index : IndexOpts :=
  mkIndexOpts (-1) 2 (-1) (-1) 0 0 0 0 0 0.

(** The 2 by 2 system with one element of [A] missing. *)
Definition A22_short : Matrix :=
  mkMatrix FloatMatrix 2 2 2 3 NaN cmplx_NaN Fixture.locA.

(** The options with a negative [offsetA]. *)
Definition negative_offset_index : IndexOpts :=
  mkIndexOpts (-1) (-1) (-1) (-1) 0 0 0 (-1) 0 0.

(** The store of the 2 by 2 system with pivot arrays of one and of two
    entries. *)
Definition loc_piv1 : loc := 8%positive.

Definition pivot_store : Store :=
  <[Fixture.locA := FloatBuf [2; 1; 1; 1]%float]>
    (<[Fixture.locB := FloatBuf [3; 2]%float]>
       (<[Fixture.loc_piv := IntBuf [0; 0]]>
          (<[loc_piv1 := IntBuf [0]]> ∅))).

(** A kernel double for [dgesv] that reports a singular matrix. *)
Definition singular_kernel (c : KernelCall) : KernelOut :=
  match c with
  | dgesv _ _ Aa _ piv Ba _ => mkKernelOut (FloatBuf Ba) (FloatBuf Aa) piv 2
  | _ => Fixture.idle_kernel c
  end.

(** Scalars: a real NaN, and a real three with a NaN complex value. *)
Definition nan : Matrix := Fixture.FScalar NaN Fixture.loc_nan.
Definition three : Matrix := Fixture.FScalar 3%float Fixture.loc_alpha.

(** A 1 by 1 real operand that starts at the second element of its array,
    a store for it and a 1 by 1 [B], the options with [offsetA = 1], and
    what the check resolves them to for Trmm. *)
Definition A11_at1 : Matrix := Fixture.FView 1 1 1 2 Fixture.locA.

Definition offset_store : Store :=
  <[Fixture.locA := FloatBuf [7; 2]%float]>
    (<[Fixture.locB := FloatBuf [3%float]]> ∅).

Definition offset_opts : Opts :=
  mkOpts (inl Fixture.default_params)
         (mkIndexOpts (-1) (-1) (-1) (-1) 0 0 0 1 0 0).

Definition offset_index : IndexOpts :=
  mkIndexOpts 1 1 (-1) (-1) 1 1 0 1 0 0.

End Sample.

(** * Properties *)

(** ** Gesv: dimension and stride resolution *)

Ltac fields :=
  cbv beta iota zeta delta
    [M N K Nrhs LDa LDb LDc OffsetA OffsetB OffsetC
     set_N set_Nrhs set_LDa set_LDb andb].

(** Lines 44-72 in closed form. *)
Lemma Gesv_resolve_eq (A B : Matrix) (ind : IndexOpts) :
  Gesv_resolve A B ind =
  if (N ind <? 0) && negb (Rows A =? Cols A) then
    Return (Error "Gesv: A not square")
  else if (Gesv_N A ind =? 0) || (Gesv_Nrhs B ind =? 0) then Return Nil
  else if Gesv_LDa A ind <? GoInt.max 1 (Gesv_N A ind) then
    Return (Error "Gesv: ldA")
  else if Gesv_LDb B ind <? GoInt.max 1 (Gesv_N A ind) then
    Return (Error "Gesv: ldB")
  else Next (Gesv_config A B ind).
Proof.
  destruct ind as [m n k nrhs lda ldb ldc oa ob oc].
  unfold Gesv_resolve, Gesv_config, Gesv_N, Gesv_Nrhs, Gesv_LDa, Gesv_LDb,
    Gesv_arows, Gesv_brows, onError.
  fields.
  destruct (n <? 0); fields;
    (destruct (nrhs <? 0); fields);
    (destruct (lda =? 0); fields);
    (destruct (ldb =? 0); fields);
    reflexivity.
Qed.

Lemma GoInt_max_spec (a b : Z) : GoInt.max a b = Z.max a b.
Proof. unfold GoInt.max. destruct (Z.ltb_spec a b); lia. Qed.

Lemma Gesv_resolved_returns (kernel : KernelCall -> KernelOut) (A B : Matrix)
    (ipiv : option loc) (ind : IndexOpts) (st : Store) (r : Result) :
  Gesv_resolve A B ind = Return r ->
  Gesv kernel A B ipiv ind st = mkOutcome r [] st.
Proof. intros H. unfold Gesv. rewrite H. reflexivity. Qed.

(** C10. When [n] or [nrhs] resolves to zero, Gesv returns nil at line 57,
    before the stride, offset, size, [ipiv] and type checks: whatever the
    strides, offsets, [ipiv] and operand types are, the call succeeds, no
    kernel is called and the store is untouched. *)
Theorem Gesv_zero_dimension_returns_nil (kernel : KernelCall -> KernelOut)
    (A B : Matrix) (ipiv : option loc) (ind : IndexOpts) (st : Store) :
  (N ind < 0 -> Rows A = Cols A) ->
  Gesv_N A ind = 0 \/ Gesv_Nrhs B ind = 0 ->
  Gesv kernel A B ipiv ind st = mkOutcome Nil [] st.
Proof.
  intros Hsq Hzero. apply Gesv_resolved_returns.
  rewrite Gesv_resolve_eq.
  destruct (Z.ltb_spec (N ind) 0) as [Hn | Hn]; cbn [andb].
  - rewrite (Hsq Hn), Z.eqb_refl. cbn [negb].
    destruct Hzero as [-> | ->]; [reflexivity |].
    rewrite orb_true_r. reflexivity.
  - destruct Hzero as [-> | ->]; [reflexivity |].
    rewrite orb_true_r. reflexivity.
Qed.

Lemma Gesv_zero_dimension_witness :
  Gesv Fixture.idle_kernel Fixture.A22 Fixture.B20c (Some Fixture.loc_piv)
       Fixture.bad_index Fixture.system_store
  = mkOutcome Nil [] Fixture.system_store.
Proof.
  apply Gesv_zero_dimension_returns_nil.
  - intros _. reflexivity.
  - right. reflexivity.
Defined.

(** ** Gesv: the stride checks *)

Lemma Gesv_status_not_stride (i : Z) :
  Gesv_status i <> Error "Gesv: ldA" /\ Gesv_status i <> Error "Gesv: ldB".
Proof.
  unfold Gesv_status, onError.
  destruct (negb (i =? 0)); split; intros H; try discriminate H;
    injection H as H; cbn in H; congruence.
Qed.

Lemma Gesv_call_ret (kernel : KernelCall -> KernelOut) (A B : Matrix)
    (ipiv : option loc) (st : Store) (c : GesvConfig) :
  ret (Gesv_call kernel A B ipiv st c) = slice_panic \/
  exists call, calls (Gesv_call kernel A B ipiv st c) = [call] /\
               ret (Gesv_call kernel A B ipiv st c) = Gesv_status (info (kernel call)).
Proof.
  unfold Gesv_call.
  destruct ipiv as [p |];
    [| destruct (make_int32 (N (gind c)) st) as [p st1];
       destruct (MakeCopy A st1) as [A' st2] ];
    match goal with |- context [mtype ?X] => destruct (mtype X) end;
    unfold sliced;
    repeat match goal with
           | |- context [match ?o with Some _ => _ | None => _ end] =>
               destruct o; [| left; reflexivity]
           end;
    right; eexists; split; reflexivity.
Qed.

(** Once the strides are resolved, no later stage reports a stride error. *)
Lemma Gesv_resolved_not_stride (kernel : KernelCall -> KernelOut)
    (A B : Matrix) (ipiv : option loc) (ind : IndexOpts) (st : Store)
    (c : GesvConfig) :
  Gesv_resolve A B ind = Next c ->
  ret (Gesv kernel A B ipiv ind st) <> Error "Gesv: ldA" /\
  ret (Gesv kernel A B ipiv ind st) <> Error "Gesv: ldB".
Proof.
  intros H. unfold Gesv. rewrite H.
  destruct (Gesv_validate A B ipiv st c) as [c' | r] eqn:Hv.
  - destruct (Gesv_call_ret kernel A B ipiv st c') as [-> | (call & _ & ->)].
    + split; discriminate.
    + apply Gesv_status_not_stride.
  - cbn [ret]. unfold Gesv_validate in Hv.
    destruct (Gesv_bounds A B ipiv st c) as [c0 | r0] eqn:Hb.
    + destruct (negb (EqualTypes [A; B])); [| discriminate Hv].
      injection Hv as <-. split; discriminate.
    + injection Hv as <-. unfold Gesv_bounds, onError in Hb.
      repeat match type of Hb with
             | (if ?b then _ else _) = _ => destruct b
             end;
        try discriminate Hb; injection Hb as <-; split; discriminate.
Qed.

(** C8, amended.  When [n] resolves above 1 and [nrhs] does not resolve to
    zero, a supplied [ldA = n - 1] is rejected with the error "Gesv: ldA"
    and a supplied [ldB = n - 1] with "Gesv: ldA" or "Gesv: ldB"; a
    supplied [ldA = n] never ends in "Gesv: ldA", a supplied [ldB = n]
    never in "Gesv: ldB". *)
Theorem Gesv_stride_boundary (kernel : KernelCall -> KernelOut)
    (A B : Matrix) (ipiv : option loc) (ind : IndexOpts) (st : Store) :
  (N ind < 0 -> Rows A = Cols A) ->
  1 < Gesv_N A ind ->
  Gesv_Nrhs B ind <> 0 ->
  let r := ret (Gesv kernel A B ipiv ind st) in
  (LDa ind = Gesv_N A ind - 1 -> r = Error "Gesv: ldA") /\
  (LDb ind = Gesv_N A ind - 1 ->
     r = Error "Gesv: ldA" \/ r = Error "Gesv: ldB") /\
  (LDa ind = Gesv_N A ind -> r <> Error "Gesv: ldA") /\
  (LDb ind = Gesv_N A ind -> r <> Error "Gesv: ldB").
Proof.
  intros Hsq Hn Hrhs r. subst r.
  assert (Hres := Gesv_resolve_eq A B ind).
  assert (Hsquare : (N ind <? 0) && negb (Rows A =? Cols A) = false).
  { destruct (Z.ltb_spec (N ind) 0) as [Hneg | _]; [| reflexivity].
    rewrite (Hsq Hneg), Z.eqb_refl. reflexivity. }
  assert (Hnz : (Gesv_N A ind =? 0) || (Gesv_Nrhs B ind =? 0) = false).
  { apply orb_false_intro; apply Z.eqb_neq; lia. }
  rewrite Hsquare, Hnz in Hres.
  assert (Hmax : GoInt.max 1 (Gesv_N A ind) = Gesv_N A ind).
  { rewrite GoInt_max_spec. lia. }
  rewrite Hmax in Hres.
  repeat split.
  - intros Hld.
    assert (Ha : (Gesv_LDa A ind <? Gesv_N A ind) = true).
    { apply Z.ltb_lt. unfold Gesv_LDa.
      destruct (Z.eqb_spec (LDa ind) 0); lia. }
    rewrite Ha in Hres.
    rewrite (Gesv_resolved_returns kernel A B ipiv ind st _ Hres). reflexivity.
  - intros Hld.
    assert (Hb : (Gesv_LDb B ind <? Gesv_N A ind) = true).
    { apply Z.ltb_lt. unfold Gesv_LDb.
      destruct (Z.eqb_spec (LDb ind) 0); lia. }
    rewrite Hb in Hres.
    destruct (Gesv_LDa A ind <? Gesv_N A ind);
      rewrite (Gesv_resolved_returns kernel A B ipiv ind st _ Hres);
      [left | right]; reflexivity.
  - intros Hld.
    assert (Ha : (Gesv_LDa A ind <? Gesv_N A ind) = false).
    { apply Z.ltb_ge. unfold Gesv_LDa.
      destruct (Z.eqb_spec (LDa ind) 0); lia. }
    rewrite Ha in Hres.
    destruct (Gesv_LDb B ind <? Gesv_N A ind).
    + rewrite (Gesv_resolved_returns kernel A B ipiv ind st _ Hres).
      discriminate.
    + apply (Gesv_resolved_not_stride kernel A B ipiv ind st _ Hres).
  - intros Hld.
    assert (Hb : (Gesv_LDb B ind <? Gesv_N A ind) = false).
    { apply Z.ltb_ge. unfold Gesv_LDb.
      destruct (Z.eqb_spec (LDb ind) 0); lia. }
    rewrite Hb in Hres.
    destruct (Gesv_LDa A ind <? Gesv_N A ind).
    + rewrite (Gesv_resolved_returns kernel A B ipiv ind st _ Hres).
      discriminate.
    + apply (Gesv_resolved_not_stride kernel A B ipiv ind st _ Hres).
Qed.

Lemma Gesv_stride_boundary_witness :
  ret (Gesv Fixture.idle_kernel Fixture.A22 Fixture.B21 None
            Fixture.lda1_index Fixture.system_store)
  = Error "Gesv: ldA".
Proof.
  apply (Gesv_stride_boundary Fixture.idle_kernel Fixture.A22 Fixture.B21 None
           Fixture.lda1_index Fixture.system_store).
  - intros _. reflexivity.
  - vm_compute. reflexivity.
  - vm_compute. discriminate.
  - reflexivity.
Defined.

(** C8 as stated fails: with [n = 2] and a supplied [ldA = 1 = n - 1], a
    right-hand side without columns makes the call return nil. *)
Lemma Gesv_stride_unchecked_without_rhs :
  Gesv_N Fixture.A22 Fixture.lda1_index = 2 /\
  LDa Fixture.lda1_index = Gesv_N Fixture.A22 Fixture.lda1_index - 1 /\
  Gesv Fixture.idle_kernel Fixture.A22 Fixture.B20 None
       Fixture.lda1_index Fixture.empty_rhs_store
  = mkOutcome Nil [] Fixture.empty_rhs_store.
Proof. repeat split. Qed.

(** ** Gesv: unset options against the explicit configuration *)

Lemma GoInt_max_1_nonzero (x : Z) : (GoInt.max 1 x =? 0) = false.
Proof. apply Z.eqb_neq. rewrite GoInt_max_spec. lia. Qed.

Lemma Gesv_N_explicit (A B : Matrix) :
  Gesv_N A (Gesv_explicit A B) = Gesv_N A Gesv_unset.
Proof.
  unfold Gesv_N, Gesv_explicit, Gesv_unset. cbn [N].
  destruct (Rows A <? 0); reflexivity.
Qed.

Lemma Gesv_Nrhs_explicit (A B : Matrix) :
  Gesv_Nrhs B (Gesv_explicit A B) = Gesv_Nrhs B Gesv_unset.
Proof.
  unfold Gesv_Nrhs, Gesv_explicit, Gesv_unset. cbn [Nrhs].
  destruct (Cols B <? 0); reflexivity.
Qed.

Lemma Gesv_LD_explicit (A B : Matrix) :
  Gesv_LDa A (Gesv_explicit A B) = Gesv_LDa A Gesv_unset /\
  Gesv_LDb B (Gesv_explicit A B) = Gesv_LDb B Gesv_unset.
Proof.
  unfold Gesv_LDa, Gesv_LDb, Gesv_explicit, Gesv_unset. cbn [LDa LDb].
  rewrite !GoInt_max_1_nonzero. split; reflexivity.
Qed.

(** The row strides of the size checks agree only when the default stride
    [max(1, LeadingIndex())] is [max(1, Rows())]. *)
Lemma Gesv_rows_explicit (A B : Matrix) :
  Gesv_arows A (Gesv_explicit A B) = GoInt.max 1 (LeadingIndex A) /\
  Gesv_arows A Gesv_unset = GoInt.max 1 (Rows A) /\
  Gesv_brows B (Gesv_explicit A B) = GoInt.max 1 (LeadingIndex B) /\
  Gesv_brows B Gesv_unset = GoInt.max 1 (Rows B).
Proof.
  unfold Gesv_arows, Gesv_brows, Gesv_explicit, Gesv_unset. cbn [LDa LDb].
  rewrite !GoInt_max_1_nonzero. repeat split; reflexivity.
Qed.

(** C7, amended.  For a square [A], and operands whose default stride
    [max(1, LeadingIndex())] equals [max(1, Rows())], the call with every
    option unset and the call with [n], [nrhs], [ldA], [ldB] supplied
    explicitly resolve to the same configuration (the one supplied, with
    the same row strides for the size checks) or return alike before, and
    the two calls have the same outcome: result, kernel call and store. *)
Theorem Gesv_unset_as_explicit (A B : Matrix) :
  Rows A = Cols A ->
  GoInt.max 1 (LeadingIndex A) = GoInt.max 1 (Rows A) ->
  GoInt.max 1 (LeadingIndex B) = GoInt.max 1 (Rows B) ->
  Gesv_resolve A B Gesv_unset = Gesv_resolve A B (Gesv_explicit A B) /\
  (forall c, Gesv_resolve A B Gesv_unset = Next c ->
             gind c = Gesv_explicit A B) /\
  (forall kernel ipiv st,
     Gesv kernel A B ipiv Gesv_unset st =
     Gesv kernel A B ipiv (Gesv_explicit A B) st).
Proof.
  intros Hsq HA HB.
  assert (Hcfg : Gesv_config A B Gesv_unset = Gesv_config A B (Gesv_explicit A B)).
  { unfold Gesv_config.
    rewrite Gesv_N_explicit, Gesv_Nrhs_explicit.
    destruct (Gesv_LD_explicit A B) as [-> ->].
    destruct (Gesv_rows_explicit A B) as (-> & -> & -> & ->).
    rewrite HA, HB. reflexivity. }
  assert (Hres : Gesv_resolve A B Gesv_unset = Gesv_resolve A B (Gesv_explicit A B)).
  { rewrite !Gesv_resolve_eq, Hcfg.
    rewrite Gesv_N_explicit, Gesv_Nrhs_explicit.
    destruct (Gesv_LD_explicit A B) as [-> ->].
    rewrite Hsq, Z.eqb_refl. cbn [negb]. rewrite !andb_false_r.
    reflexivity. }
  split; [exact Hres |]. split.
  - intros c Hc. rewrite Gesv_resolve_eq in Hc.
    rewrite Hsq, Z.eqb_refl in Hc. cbn [negb] in Hc.
    rewrite andb_false_r in Hc.
    unfold Gesv_N, Gesv_Nrhs in Hc. cbn [Gesv_unset N Nrhs Z.ltb Z.compare] in Hc.
    repeat match type of Hc with
           | (if ?b then _ else _) = _ => destruct b eqn:?
           end; try discriminate Hc.
    injection Hc as <-. reflexivity.
  - intros kernel ipiv st. unfold Gesv. rewrite Hres. reflexivity.
Qed.

Lemma Gesv_unset_as_explicit_witness :
  Gesv Fixture.solving_kernel Fixture.A22 Fixture.B21 None Gesv_unset
       Fixture.system_store
  = Gesv Fixture.solving_kernel Fixture.A22 Fixture.B21 None
         (Gesv_explicit Fixture.A22 Fixture.B21) Fixture.system_store.
Proof.
  apply (Gesv_unset_as_explicit Fixture.A22 Fixture.B21); reflexivity.
Defined.

(** C7 as stated fails for an operand whose stride is not its row count:
    for a 2 by 2 view with three rows per column the unset call checks
    [A]'s size with the row stride 2, the explicit call with 3. *)
Lemma Gesv_unset_row_stride_differs :
  Gesv_resolve Fixture.A22_view Fixture.B21 Gesv_unset
  = Next (mkGesvConfig (Gesv_explicit Fixture.A22_view Fixture.B21) 2 2) /\
  Gesv_resolve Fixture.A22_view Fixture.B21
               (Gesv_explicit Fixture.A22_view Fixture.B21)
  = Next (mkGesvConfig (Gesv_explicit Fixture.A22_view Fixture.B21) 3 2).
Proof. split; reflexivity. Qed.

(** ** Gesv: the slice of A before the kernel call *)

(** C4 fails on the code: with the 2 by 2 system, its 2 by 1 right-hand
    side and [ldB = 3], every check of lines 44-92 passes, and the slice
    expression of line 104 asks for [ldA * ldB = 6] of [A]'s four
    elements. *)
Theorem Gesv_reslice_out_of_range :
  Gesv_resolve Fixture.A22 Fixture.B21 Fixture.ldb3_index
  = Next (Gesv_config Fixture.A22 Fixture.B21 Fixture.ldb3_index) /\
  Gesv_validate Fixture.A22 Fixture.B21 None Fixture.system_store
                (Gesv_config Fixture.A22 Fixture.B21 Fixture.ldb3_index)
  = Next (Gesv_config Fixture.A22 Fixture.B21 Fixture.ldb3_index) /\
  well_stored Fixture.system_store Fixture.A22 /\
  well_stored Fixture.system_store Fixture.B21 /\
  ret (Gesv Fixture.solving_kernel Fixture.A22 Fixture.B21 None
            Fixture.ldb3_index Fixture.system_store)
  = Panic "slice bounds out of range" /\
  calls (Gesv Fixture.solving_kernel Fixture.A22 Fixture.B21 None
              Fixture.ldb3_index Fixture.system_store) = [].
Proof.
  split; [reflexivity |]. split; [reflexivity |].
  split; [eexists; split; reflexivity |].
  split; [eexists; split; reflexivity |].
  split; vm_compute; reflexivity.
Qed.

Lemma wrap_in_range (z : Z) : GoInt.in_range z -> GoInt.wrap z = z.
Proof.
  unfold GoInt.in_range, GoInt.wrap. intros H.
  rewrite Z.mod_small by lia. lia.
Qed.

(** What a resolution that falls through has established. *)
Lemma Gesv_resolve_facts (A B : Matrix) (ind : IndexOpts) (c : GesvConfig) :
  Gesv_resolve A B ind = Next c ->
  c = Gesv_config A B ind /\
  Gesv_N A ind <> 0 /\ Gesv_Nrhs B ind <> 0 /\
  Z.max 1 (Gesv_N A ind) <= Gesv_LDa A ind /\
  Z.max 1 (Gesv_N A ind) <= Gesv_LDb B ind.
Proof.
  rewrite Gesv_resolve_eq, !GoInt_max_spec.
  destruct ((N ind <? 0) && negb (Rows A =? Cols A)); [discriminate |].
  destruct (Z.eqb_spec (Gesv_N A ind) 0); [discriminate |].
  destruct (Z.eqb_spec (Gesv_Nrhs B ind) 0); [discriminate |]. cbn [orb].
  destruct (Z.ltb_spec (Gesv_LDa A ind) (Z.max 1 (Gesv_N A ind)));
    [discriminate |].
  destruct (Z.ltb_spec (Gesv_LDb B ind) (Z.max 1 (Gesv_N A ind)));
    [discriminate |].
  intros [= <-]. repeat split; assumption.
Qed.

(** The size expression of lines 80 and 84 without wrap-around. *)
Lemma size_expression (off n rows m : Z) :
  0 <= off -> 0 < n -> 0 < rows -> 0 < m ->
  off + (n - 1) * rows + m < 2 ^ 63 ->
  GoInt.add (GoInt.add off (GoInt.mul (GoInt.sub n 1) rows)) m
  = off + (n - 1) * rows + m.
Proof.
  intros Hoff Hn Hrows Hm Hfit.
  assert (Hp : 0 <= (n - 1) * rows) by (apply Z.mul_nonneg_nonneg; lia).
  assert (Hn1 : n - 1 <= (n - 1) * rows) by nia.
  unfold GoInt.add, GoInt.sub, GoInt.mul.
  rewrite (wrap_in_range (n - 1)) by (unfold GoInt.in_range; lia).
  rewrite (wrap_in_range ((n - 1) * rows)) by (unfold GoInt.in_range; lia).
  rewrite (wrap_in_range (off + _)) by (unfold GoInt.in_range; lia).
  apply wrap_in_range. unfold GoInt.in_range. lia.
Qed.

(** The part of C4 that holds: once the checks of lines 44-89 pass (and
    the size expressions do not wrap around), both offsets lie inside
    their operand, so the slice expressions [Aa[offsetA:]] and
    [Ba[offsetB:]] are in range for operands stored with [NumElements()]
    elements. *)
Lemma Gesv_offsets_within_capacity (A B : Matrix) (ipiv : option loc)
    (ind : IndexOpts) (st : Store) (c : GesvConfig) :
  0 <= Rows A -> 0 <= Cols B ->
  Gesv_resolve A B ind = Next c ->
  Gesv_bounds A B ipiv st c = Next c ->
  OffsetA ind + (N (gind c) - 1) * arows c + N (gind c) < 2 ^ 63 ->
  OffsetB ind + (Nrhs (gind c) - 1) * brows c + N (gind c) < 2 ^ 63 ->
  0 <= OffsetA ind < NumElements A /\ 0 <= OffsetB ind < NumElements B.
Proof.
  intros HrA HcB Hres Hb HfitA HfitB.
  destruct (Gesv_resolve_facts A B ind c Hres) as (-> & Hn & Hrhs & Hlda & Hldb).
  cbn [gind arows brows Gesv_config N Nrhs] in HfitA, HfitB.
  assert (HN : 0 < Gesv_N A ind).
  { unfold Gesv_N in *. destruct (Z.ltb_spec (N ind) 0); lia. }
  assert (HR : 0 < Gesv_Nrhs B ind).
  { unfold Gesv_Nrhs in *. destruct (Z.ltb_spec (Nrhs ind) 0); lia. }
  assert (Har : 0 < Gesv_arows A ind).
  { unfold Gesv_arows, Gesv_LDa in *. rewrite GoInt_max_spec.
    destruct (Z.eqb_spec (LDa ind) 0); lia. }
  assert (Hbr : 0 < Gesv_brows B ind).
  { unfold Gesv_brows, Gesv_LDb in *. rewrite GoInt_max_spec.
    destruct (Z.eqb_spec (LDb ind) 0); lia. }
  unfold Gesv_bounds, onError in Hb.
  cbn [gind arows brows Gesv_config N Nrhs OffsetA OffsetB] in Hb.
  destruct (Z.ltb_spec (OffsetA ind) 0) as [| HoA]; [discriminate |].
  destruct (Z.ltb_spec (OffsetB ind) 0) as [| HoB]; [discriminate |].
  rewrite !size_expression in Hb by assumption.
  destruct (Z.ltb_spec (NumElements A)
              (OffsetA ind + (Gesv_N A ind - 1) * Gesv_arows A ind + Gesv_N A ind))
    as [| HsA]; [discriminate |].
  destruct (Z.ltb_spec (NumElements B)
              (OffsetB ind + (Gesv_Nrhs B ind - 1) * Gesv_brows B ind + Gesv_N A ind))
    as [| HsB]; [discriminate |].
  assert (0 <= (Gesv_N A ind - 1) * Gesv_arows A ind)
    by (apply Z.mul_nonneg_nonneg; lia).
  assert (0 <= (Gesv_Nrhs B ind - 1) * Gesv_brows B ind)
    by (apply Z.mul_nonneg_nonneg; lia).
  lia.
Qed.

Lemma slice_from_in_range {T} (s : list T) (lo : Z) :
  0 <= lo <= len s -> is_Some (slice_from s lo).
Proof.
  intros [H0 H1]. unfold slice_from.
  destruct (Z.leb_spec 0 lo); [| lia].
  destruct (Z.leb_spec lo (len s)); [| lia]. cbn [andb]. eauto.
Qed.

(** ** Gesv: the call without a permutation buffer *)

Lemma write_back_lookup_ne (st : Store) (l l' : loc) (lo hi : Z) (new : Buf) :
  l' <> l -> write_back st l lo hi new !! l' = st !! l'.
Proof.
  intros Hne. unfold write_back.
  destruct (st !! l) as [[old | old | old] |]; destruct new;
    try reflexivity; apply lookup_insert_ne; congruence.
Qed.

Lemma write_back_lookup_float (st : Store) (l : loc) (lo hi : Z)
    (old new : list float64) :
  st !! l = Some (FloatBuf old) ->
  write_back st l lo hi (FloatBuf new) !! l
  = Some (FloatBuf (overwrite old lo hi new)).
Proof. intros H. unfold write_back. rewrite H. apply lookup_insert_eq. Qed.

Lemma write_back_lookup_complex (st : Store) (l : loc) (lo hi : Z)
    (old new : list complex128) :
  st !! l = Some (ComplexBuf old) ->
  write_back st l lo hi (ComplexBuf new) !! l
  = Some (ComplexBuf (overwrite old lo hi new)).
Proof. intros H. unfold write_back. rewrite H. apply lookup_insert_eq. Qed.

Lemma fresh_lookup_ne (st : Store) (l : loc) :
  is_Some (st !! l) -> l <> fresh (dom st).
Proof.
  intros Hl ->. apply elem_of_dom in Hl. exact (is_fresh (dom st) Hl).
Qed.

(** Allocation leaves what is stored where it is. *)
Lemma make_int32_lookup (n : Z) (st : Store) (l : loc) :
  is_Some (st !! l) -> (make_int32 n st).2 !! l = st !! l.
Proof.
  intros Hl. unfold make_int32. cbn [snd].
  apply lookup_insert_ne. symmetry. apply fresh_lookup_ne, Hl.
Qed.

Lemma MakeCopy_lookup (A : Matrix) (st : Store) (l : loc) :
  is_Some (st !! l) -> (MakeCopy A st).2 !! l = st !! l.
Proof.
  intros Hl. unfold MakeCopy. cbn [snd].
  destruct (st !! elems A); [| reflexivity].
  apply lookup_insert_ne. symmetry. apply fresh_lookup_ne, Hl.
Qed.

Lemma slice_from_overwritten {T} (old new : list T) (lo : Z) (s : list T) :
  slice_from old lo = Some s ->
  slice_from (overwrite old lo (len old) new) lo = Some new.
Proof.
  unfold slice_from, overwrite, len.
  destruct (Z.leb_spec 0 lo) as [H0 |]; [| discriminate].
  destruct (Z.leb_spec lo (Z.of_nat (length old))) as [H1 |]; [| discriminate].
  intros _. cbn [andb].
  rewrite Nat2Z.id, drop_all, app_nil_r, length_app, length_take.
  assert (Hmin : (Z.to_nat lo `min` length old)%nat = Z.to_nat lo) by lia.
  rewrite Hmin.
  destruct (Z.leb_spec lo (Z.of_nat (Z.to_nat lo + length new))) as [_ | Hlt];
    [| lia].
  cbn [andb]. f_equal.
  rewrite drop_app_length'; [reflexivity |].
  rewrite length_take. lia.
Qed.

Lemma Gesv_validate_Next (A B : Matrix) (ipiv : option loc) (st : Store)
    (c c' : GesvConfig) :
  Gesv_validate A B ipiv st c = Next c' ->
  c' = c /\ EqualTypes [A; B] = true.
Proof.
  unfold Gesv_validate.
  destruct (Gesv_bounds A B ipiv st c) as [c0 | r] eqn:Hb; [| discriminate].
  destruct (negb (EqualTypes [A; B])) eqn:Ht; [discriminate |].
  intros [= <-]. apply negb_false_iff in Ht. split; [| exact Ht].
  unfold Gesv_bounds, onError in Hb.
  repeat match type of Hb with
         | (if ?b then _ else _) = _ => destruct b
         end; try discriminate Hb.
  injection Hb as <-. reflexivity.
Qed.

Lemma Gesv_resolve_Next (A B : Matrix) (ind : IndexOpts) (c : GesvConfig) :
  Gesv_resolve A B ind = Next c -> c = Gesv_config A B ind.
Proof.
  rewrite Gesv_resolve_eq.
  repeat match goal with
         | |- (if ?b then _ else _) = _ -> _ => destruct b
         end; try discriminate.
  intros [= <-]. reflexivity.
Qed.

(** A call that reaches the kernel went through every check. *)
Lemma Gesv_reaches_kernel (kernel : KernelCall -> KernelOut) (A B : Matrix)
    (ipiv : option loc) (ind : IndexOpts) (st : Store) (call : KernelCall) :
  calls (Gesv kernel A B ipiv ind st) = [call] ->
  EqualTypes [A; B] = true /\
  Gesv kernel A B ipiv ind st
  = Gesv_call kernel A B ipiv st (Gesv_config A B ind).
Proof.
  unfold Gesv.
  destruct (Gesv_resolve A B ind) as [c | r] eqn:Hres; [| discriminate].
  apply Gesv_resolve_Next in Hres as ->.
  destruct (Gesv_validate A B ipiv st _) as [c | r] eqn:Hval; [| discriminate].
  apply Gesv_validate_Next in Hval as [-> Heq].
  intros _. split; [exact Heq | reflexivity].
Qed.

Lemma EqualTypes_pair (A B : Matrix) :
  EqualTypes [A; B] = true -> mtype B = mtype A.
Proof.
  cbn. rewrite andb_true_r. intros H. apply bool_decide_eq_true in H. exact H.
Qed.

Lemma buf_len_write_back_ne (st : Store) (l l' : loc) (lo hi : Z) (new : Buf) :
  l' <> l -> buf_len (write_back st l lo hi new) l' = buf_len st l'.
Proof.
  intros Hne. unfold buf_len. rewrite write_back_lookup_ne by exact Hne.
  reflexivity.
Qed.

Lemma buf_len_float (st : Store) (l : loc) (b : list float64) :
  st !! l = Some (FloatBuf b) -> buf_len st l = len b.
Proof. intros H. unfold buf_len. rewrite H. reflexivity. Qed.

Lemma buf_len_complex (st : Store) (l : loc) (b : list complex128) :
  st !! l = Some (ComplexBuf b) -> buf_len st l = len b.
Proof. intros H. unfold buf_len. rewrite H. reflexivity. Qed.

(** The kernel's writes touch the arrays of [A], [ipiv] and [B] only. *)
Lemma Gesv_written_frame (st : Store) (A B : Matrix) (p : loc)
    (ind : IndexOpts) (hiA : Z) (out : KernelOut) (l : loc) :
  l <> elems A -> l <> p -> l <> elems B ->
  Gesv_written st A B p ind hiA out !! l = st !! l.
Proof.
  intros HA Hp HB. unfold Gesv_written.
  rewrite !write_back_lookup_ne by assumption. reflexivity.
Qed.

Lemma Gesv_written_B_float (st : Store) (A B : Matrix) (p : loc)
    (ind : IndexOpts) (hiA : Z) (out : KernelOut) (b x : list float64) :
  elems B <> elems A -> elems B <> p ->
  st !! elems B = Some (FloatBuf b) -> wout out = FloatBuf x ->
  Gesv_written st A B p ind hiA out !! elems B
  = Some (FloatBuf (overwrite b (OffsetB ind) (len b) x)).
Proof.
  intros HA Hp Hb Hx. unfold Gesv_written. rewrite Hx. cbv zeta.
  match goal with
  | |- write_back ?S _ _ _ _ !! _ = _ =>
      assert (HS : S !! elems B = Some (FloatBuf b))
        by (rewrite !write_back_lookup_ne by assumption; exact Hb)
  end.
  rewrite (write_back_lookup_float _ _ _ _ b x HS).
  rewrite (buf_len_float _ _ _ HS). reflexivity.
Qed.

Lemma Gesv_written_B_complex (st : Store) (A B : Matrix) (p : loc)
    (ind : IndexOpts) (hiA : Z) (out : KernelOut) (b x : list complex128) :
  elems B <> elems A -> elems B <> p ->
  st !! elems B = Some (ComplexBuf b) -> wout out = ComplexBuf x ->
  Gesv_written st A B p ind hiA out !! elems B
  = Some (ComplexBuf (overwrite b (OffsetB ind) (len b) x)).
Proof.
  intros HA Hp Hb Hx. unfold Gesv_written. rewrite Hx. cbv zeta.
  match goal with
  | |- write_back ?S _ _ _ _ !! _ = _ =>
      assert (HS : S !! elems B = Some (ComplexBuf b))
        by (rewrite !write_back_lookup_ne by assumption; exact Hb)
  end.
  rewrite (write_back_lookup_complex _ _ _ _ b x HS).
  rewrite (buf_len_complex _ _ _ HS). reflexivity.
Qed.

(** The two allocations of lines 95-97 leave the caller's store as it is
    and return locations outside of it. *)
Lemma Gesv_private_copy (A : Matrix) (n : Z) (st : Store) :
  let st1 := (make_int32 n st).2 in
  let p := (make_int32 n st).1 in
  let A' := (MakeCopy A st1).1 in
  let st2 := (MakeCopy A st1).2 in
  mtype A' = mtype A /\
  forall l, is_Some (st !! l) ->
            st2 !! l = st !! l /\ l <> p /\ l <> elems A'.
Proof.
  intros st1 p A' st2. split; [reflexivity |].
  intros l Hl.
  assert (H1 : st1 !! l = st !! l) by (apply make_int32_lookup, Hl).
  assert (Hl1 : is_Some (st1 !! l)) by (rewrite H1; exact Hl).
  repeat split.
  - subst st2. rewrite MakeCopy_lookup by exact Hl1. exact H1.
  - apply fresh_lookup_ne, Hl.
  - apply (fresh_lookup_ne st1), Hl1.
Qed.

(** C6.  When no [ipiv] is supplied and the call reaches the kernel, the
    only array of the caller's store that has changed is [B]'s: [A]'s
    array (when it is not also [B]'s) is as before the call, and neither
    the factors nor the pivots are left anywhere the caller can see; the
    factorization ran on the copy.  [B]'s slice from [offsetB] holds what
    the kernel left there, the solution; and the result is nil exactly
    when the kernel status is 0. *)
Theorem Gesv_without_ipiv (kernel : KernelCall -> KernelOut) (A B : Matrix)
    (ind : IndexOpts) (st : Store) (call : KernelCall) :
  calls (Gesv kernel A B None ind st) = [call] ->
  let out := Gesv kernel A B None ind st in
  (is_Some (st !! elems A) -> elems A <> elems B ->
   heap out !! elems A = st !! elems A) /\
  (forall l, is_Some (st !! l) -> l <> elems B -> heap out !! l = st !! l) /\
  (forall b x, mtype B = FloatMatrix -> st !! elems B = Some (FloatBuf b) ->
     wout (kernel call) = FloatBuf x ->
     slice_from (FloatArray (heap out) B) (OffsetB ind) = Some x) /\
  (forall b x, mtype B = ComplexMatrix -> st !! elems B = Some (ComplexBuf b) ->
     wout (kernel call) = ComplexBuf x ->
     slice_from (ComplexArray (heap out) B) (OffsetB ind) = Some x) /\
  (ret out = Nil <-> info (kernel call) = 0).
Proof.
  intros Hcalls out.
  destruct (Gesv_reaches_kernel kernel A B None ind st call Hcalls) as [Heq Hout].
  apply EqualTypes_pair in Heq.
  subst out. rewrite Hout in Hcalls |- *. clear Hout.
  unfold Gesv_call in *.
  set (n := N (gind (Gesv_config A B ind))) in *.
  destruct (Gesv_private_copy A n st) as [Hty Hfr].
  destruct (make_int32 n st) as [p st1]. cbn [fst snd] in Hty, Hfr.
  destruct (MakeCopy A st1) as [A' st2]. cbn [fst snd] in Hty, Hfr.
  assert (Hframe : forall S hi o l, is_Some (st !! l) -> l <> elems B ->
            Gesv_written st2 A' B p S hi o !! l = st !! l).
  { intros S hi o l Hl HlB. destruct (Hfr l Hl) as (H2 & Hp & HA').
    rewrite Gesv_written_frame by assumption. exact H2. }
  assert (Hstatus : forall i, Gesv_status i = Nil <-> i = 0).
  { intros i. unfold Gesv_status, onError.
    destruct (Z.eqb_spec i 0); cbn [negb]; split; congruence. }
  rewrite Hty in *. rewrite Heq in *.
  destruct (mtype A);
    unfold sliced in *;
    repeat match type of Hcalls with
           | calls (match ?o with Some _ => _ | None => _ end) = _ =>
               destruct o eqn:?; [| discriminate Hcalls]
           end;
    cbn [calls heap ret] in Hcalls |- *; injection Hcalls as <-;
    (split; [intros; apply Hframe; assumption |]);
    (split; [intros l' Hl HlB; apply Hframe; assumption |]);
    (split; [| split; [| apply Hstatus]]);
    intros b x Hmt Hb Hx; try discriminate Hmt;
    (assert (HsB : is_Some (st !! elems B)) by (rewrite Hb; eauto));
    destruct (Hfr _ HsB) as (HB2 & HBp & HBA').
  - unfold FloatArray in *.
    erewrite Gesv_written_B_float;
      [| exact HBA' | exact HBp | rewrite HB2; exact Hb | exact Hx].
    rewrite HB2, Hb in *. eapply slice_from_overwritten. eassumption.
  - unfold ComplexArray in *.
    erewrite Gesv_written_B_complex;
      [| exact HBA' | exact HBp | rewrite HB2; exact Hb | exact Hx].
    rewrite HB2, Hb in *. eapply slice_from_overwritten. eassumption.
Qed.

(** The 2 by 2 system [[2,1],[1,1]] x = [3,2] with the options unset and
    no [ipiv]: [A] keeps its elements, [B] holds [1,1], the call
    succeeds. *)
Lemma Gesv_without_ipiv_witness :
  let out := Gesv Fixture.solving_kernel Fixture.A22 Fixture.B21 None
                  Gesv_unset Fixture.system_store in
  heap out !! Fixture.locA = Some (FloatBuf [2; 1; 1; 1]%float) /\
  slice_from (FloatArray (heap out) Fixture.B21) 0 = Some [1; 1]%float /\
  ret out = Nil.
Proof.
  intros out.
  destruct (Gesv_without_ipiv Fixture.solving_kernel Fixture.A22 Fixture.B21
              Gesv_unset Fixture.system_store
              (dgesv 2 1 [2; 1; 1; 1]%float 2 [0; 0] [3; 2]%float 2))
    as (HA & _ & HB & _ & Hret).
  - vm_compute. reflexivity.
  - split; [apply HA; [eexists; reflexivity | discriminate] |].
    split; [eapply HB; reflexivity |]. apply Hret. reflexivity.
Defined.

(** ** Operands of different types *)

Section MixedOperands.

Variable kernel : KernelCall -> KernelOut.
Variable check : IndexOpts -> funcNum -> Matrix -> option Matrix ->
                 option Matrix -> Parameters -> IndexOpts * option string.

Ltac stop_at_types H :=
  match goal with
  | |- context [checked ?c ?fn ?A ?B ?C ?o] =>
      destruct (checked c fn A B C o) as [[params ind] | r];
      cbn [tried stops_before_kernel]; [| reflexivity];
      unfold zero_m_or_n, no_guard;
      try (destruct ((M ind =? 0) || (N ind =? 0)); [reflexivity |]);
      rewrite H; reflexivity
  end.

Lemma Gemm_mixed (A B C : Matrix) (alpha beta : option Matrix) (opts : Opts)
    (st : Store) :
  EqualTypes [A; B; C] = false ->
  Gemm kernel check A B C alpha beta opts st
  = mkOutcome (stops_before_kernel (checked check fgemm A (Some B) (Some C) opts)
                                   zero_m_or_n) [] st.
Proof. intros H. unfold Gemm. stop_at_types H. Qed.

Lemma Symm_mixed (A B C : Matrix) (alpha beta : option Matrix) (opts : Opts)
    (st : Store) :
  EqualTypes [A; B; C] = false ->
  Symm kernel check A B C alpha beta opts st
  = mkOutcome (stops_before_kernel (checked check fsymm A (Some B) (Some C) opts)
                                   zero_m_or_n) [] st.
Proof. intros H. unfold Symm. stop_at_types H. Qed.

Lemma Syrk_mixed (A C : Matrix) (alpha beta : option Matrix) (opts : Opts)
    (st : Store) :
  EqualTypes [A; C] = false ->
  Syrk kernel check A C alpha beta opts st
  = mkOutcome (stops_before_kernel (checked check fsyrk A None (Some C) opts)
                                   no_guard) [] st.
Proof. intros H. unfold Syrk. stop_at_types H. Qed.

Lemma Syr2k_mixed (A B C : Matrix) (alpha beta : option Matrix) (opts : Opts)
    (st : Store) :
  EqualTypes [A; B; C] = false ->
  Syr2k kernel check A B C alpha beta opts st
  = mkOutcome (stops_before_kernel (checked check fsyr2k A (Some B) (Some C) opts)
                                   no_guard) [] st.
Proof. intros H. unfold Syr2k. stop_at_types H. Qed.

Lemma Trmm_mixed (A B : Matrix) (alpha : option Matrix) (opts : Opts)
    (st : Store) :
  EqualTypes [A; B] = false ->
  Trmm kernel check A B alpha opts st
  = mkOutcome (stops_before_kernel (checked check ftrmm A (Some B) None opts)
                                   no_guard) [] st.
Proof. intros H. unfold Trmm. stop_at_types H. Qed.

Lemma Trsm_mixed (A B : Matrix) (alpha : option Matrix) (opts : Opts)
    (st : Store) :
  EqualTypes [A; B] = false ->
  Trsm kernel check A B alpha opts st
  = mkOutcome (stops_before_kernel (checked check ftrsm A (Some B) None opts)
                                   no_guard) [] st.
Proof. intros H. unfold Trsm. stop_at_types H. Qed.

Lemma Gesv_mixed (A B : Matrix) (ipiv : option loc) (ind : IndexOpts)
    (st : Store) :
  EqualTypes [A; B] = false ->
  Gesv kernel A B ipiv ind st
  = mkOutcome (Gesv_stops_before_kernel A B ipiv ind st) [] st.
Proof.
  intros H. unfold Gesv, Gesv_stops_before_kernel, Gesv_validate.
  destruct (Gesv_resolve A B ind) as [c | r]; [| reflexivity].
  destruct (Gesv_bounds A B ipiv st c) as [c' | r]; [| reflexivity].
  rewrite H. reflexivity.
Qed.

End MixedOperands.

(** Operands are not of one type exactly when one is real and another
    complex. *)
Lemma EqualTypes_false (As : list Matrix) :
  EqualTypes As = false <->
  exists X Y, X ∈ As /\ Y ∈ As /\
              mtype X = FloatMatrix /\ mtype Y = ComplexMatrix.
Proof.
  destruct As as [| A As]; cbn [EqualTypes].
  { split; [discriminate | intros (X & _ & HX & _); inversion HX]. }
  assert (Hfrom : forall t l, EqualTypes_from t l = false <->
                              exists Y, Y ∈ l /\ mtype Y <> t).
  { intros t l. induction l as [| Z l IH]; cbn [EqualTypes_from].
    - split; [discriminate | intros (Y & HY & _); inversion HY].
    - rewrite andb_false_iff, IH, bool_decide_eq_false. split.
      + intros [HZ | (Y & HY & Hne)].
        * exists Z. split; [left | exact HZ].
        * exists Y. split; [right; exact HY | exact Hne].
      + intros (Y & HY & Hne). apply elem_of_cons in HY as [-> | HY].
        * left. exact Hne.
        * right. exists Y. split; assumption. }
  rewrite Hfrom. split.
  - intros (Y & HY & Hne).
    destruct (mtype A) eqn:HA, (mtype Y) eqn:HYt; try congruence.
    + exists A, Y. repeat split; [left | right; exact HY | exact HA | exact HYt].
    + exists Y, A. repeat split; [right; exact HY | left | exact HYt | exact HA].
  - intros (X & Y & HX & HY & HXt & HYt).
    destruct (mtype A) eqn:HA.
    + apply elem_of_cons in HY as [-> | HY]; [congruence |].
      exists Y. split; [exact HY | congruence].
    + apply elem_of_cons in HX as [-> | HX]; [congruence |].
      exists X. split; [exact HX | congruence].
Qed.

(** C3, amended.  When the operands of Gemm, Symm, Syrk, Syr2k, Trmm, Trsm
    or Gesv are not of one type, no kernel is called and the store is left
    as it is, whatever the options.  The result is that of the first stage
    that returns: the error of the option parser or of the check (for Gesv,
    of the resolution or of a bounds check); nil when Gemm or Symm resolve
    [m] or [n], or Gesv [n] or [nrhs], to zero; the type error otherwise. *)
Theorem mixed_operands_stop_before_kernel
    (kernel : KernelCall -> KernelOut)
    (check : IndexOpts -> funcNum -> Matrix -> option Matrix ->
             option Matrix -> Parameters -> IndexOpts * option string)
    (A B C : Matrix) (alpha beta : option Matrix) (opts : Opts)
    (ipiv : option loc) (ind : IndexOpts) (st : Store) :
  (EqualTypes [A; B; C] = false ->
     Gemm kernel check A B C alpha beta opts st
     = mkOutcome (stops_before_kernel
                    (checked check fgemm A (Some B) (Some C) opts) zero_m_or_n)
                 [] st /\
     Symm kernel check A B C alpha beta opts st
     = mkOutcome (stops_before_kernel
                    (checked check fsymm A (Some B) (Some C) opts) zero_m_or_n)
                 [] st /\
     Syr2k kernel check A B C alpha beta opts st
     = mkOutcome (stops_before_kernel
                    (checked check fsyr2k A (Some B) (Some C) opts) no_guard)
                 [] st) /\
  (EqualTypes [A; C] = false ->
     Syrk kernel check A C alpha beta opts st
     = mkOutcome (stops_before_kernel
                    (checked check fsyrk A None (Some C) opts) no_guard)
                 [] st) /\
  (EqualTypes [A; B] = false ->
     Trmm kernel check A B alpha opts st
     = mkOutcome (stops_before_kernel
                    (checked check ftrmm A (Some B) None opts) no_guard)
                 [] st /\
     Trsm kernel check A B alpha opts st
     = mkOutcome (stops_before_kernel
                    (checked check ftrsm A (Some B) None opts) no_guard)
                 [] st /\
     Gesv kernel A B ipiv ind st
     = mkOutcome (Gesv_stops_before_kernel A B ipiv ind st) [] st).
Proof.
  split; [| split].
  - intros H. split; [| split].
    + apply Gemm_mixed, H.
    + apply Symm_mixed, H.
    + apply Syr2k_mixed, H.
  - intros H. apply Syrk_mixed, H.
  - intros H. split; [| split].
    + apply Trmm_mixed, H.
    + apply Trsm_mixed, H.
    + apply Gesv_mixed, H.
Qed.

Lemma mixed_operands_witness :
  Gemm Fixture.idle_kernel check_level3_spec Fixture.rA Fixture.zB Fixture.rC
       None None Fixture.no_opts Fixture.mixed_store
  = mkOutcome (Error "Parameters not of same type") [] Fixture.mixed_store.
Proof.
  destruct (mixed_operands_stop_before_kernel Fixture.idle_kernel
              check_level3_spec Fixture.rA Fixture.zB Fixture.rC None None
              Fixture.no_opts None Gesv_unset Fixture.mixed_store)
    as [H _].
  destruct (H eq_refl) as [HG _]. exact HG.
Defined.

(** C3 as stated fails where a dimension resolves to zero: a real [A] and
    a complex [B] without columns make Gesv return nil, not a type
    error. *)
Lemma Gesv_mixed_operands_return_nil :
  EqualTypes [Fixture.A22; Fixture.B20c] = false /\
  Gesv_Nrhs Fixture.B20c Gesv_unset = 0 /\
  Gesv Fixture.idle_kernel Fixture.A22 Fixture.B20c None Gesv_unset
       Fixture.mixed_rhs_store
  = mkOutcome Nil [] Fixture.mixed_rhs_store.
Proof. repeat split. Qed.

(** ** Zero dimensions in level 3 *)

Ltac run_flow :=
  unfold tried, sliced;
  repeat match goal with
         | |- context [if ?b then _ else _] => destruct b
         | |- context [match mtype ?A with FloatMatrix => _ | ComplexMatrix => _ end] =>
             destruct (mtype A)
         | |- context [match ?o with Some _ => _ | None => _ end] => destruct o
         end.


Section ZeroDimensions.

Variable kernel : KernelCall -> KernelOut.
Variable check : IndexOpts -> funcNum -> Matrix -> option Matrix ->
                 option Matrix -> Parameters -> IndexOpts * option string.
Variables (A B C : Matrix) (alpha beta : option Matrix) (opts : Opts).
Variables (st : Store) (params : Parameters) (ind : IndexOpts).








End ZeroDimensions.




(** ** Hemm *)

(** C9.  Hemm is Symm: the two return the same outcome (result, kernel
    calls and store) on all arguments; with complex operands whatever
    kernel call either makes is a call of [zhemm]. *)
Theorem Hemm_is_Symm
    (kernel : KernelCall -> KernelOut)
    (check : IndexOpts -> funcNum -> Matrix -> option Matrix ->
             option Matrix -> Parameters -> IndexOpts * option string)
    (A B C : Matrix) (alpha beta : option Matrix) (opts : Opts) (st : Store) :
  Hemm kernel check A B C alpha beta opts st
  = Symm kernel check A B C alpha beta opts st /\
  (mtype A = ComplexMatrix ->
   forall call, call ∈ calls (Hemm kernel check A B C alpha beta opts st) ->
                is_zhemm call = true).
Proof.
  split; [reflexivity |].
  intros Hz call. unfold Hemm, Symm. rewrite Hz.
  destruct (checked check fsymm A (Some B) (Some C) opts) as [[params ind] | r];
    cbn [tried];
  run_flow; cbn [calls invoke]; intros Hin;
    solve [ inversion Hin
          | apply list_elem_of_singleton in Hin; subst call; reflexivity ].
Qed.

Lemma Hemm_is_Symm_witness :
  let out := Hemm Fixture.idle_kernel check_level3_spec Fixture.zA Fixture.zB
                  Fixture.zC None None Fixture.no_opts Fixture.complex_store in
  out = Symm Fixture.idle_kernel check_level3_spec Fixture.zA Fixture.zB
             Fixture.zC None None Fixture.no_opts Fixture.complex_store /\
  exists call, calls out = [call] /\ is_zhemm call = true.
Proof.
  intros out.
  destruct (Hemm_is_Symm Fixture.idle_kernel check_level3_spec Fixture.zA
              Fixture.zB Fixture.zC None None Fixture.no_opts
              Fixture.complex_store) as [Heq H].
  split; [exact Heq |].
  eexists. split; [vm_compute; reflexivity |].
  apply (H eq_refl). vm_compute. left.
Defined.

(** ** Scalar coercion *)

Section Scalars.

Variable kernel : KernelCall -> KernelOut.
Variable check : IndexOpts -> funcNum -> Matrix -> option Matrix ->
                 option Matrix -> Parameters -> IndexOpts * option string.
Variables (A B C : Matrix) (opts : Opts).
Variables (st : Store) (params : Parameters) (ind : IndexOpts).

(** The real branch of Gemm rejects a NaN scalar and nothing else. *)
Lemma Gemm_real_scalars (alpha beta : option Matrix) :
  checked check fgemm A (Some B) (Some C) opts = Next (params, ind) ->
  zero_m_or_n ind = false -> EqualTypes [A; B; C] = true ->
  mtype A = FloatMatrix ->
  let out := Gemm kernel check A B C alpha beta opts st in
  (IsNaN (real_scalar alpha 1) || IsNaN (real_scalar beta 0) = true ->
   out = mkOutcome (Error "alpha or beta not a number") [] st) /\
  (IsNaN (real_scalar alpha 1) || IsNaN (real_scalar beta 0) = false ->
   ret out = Nil \/ ret out = slice_panic).
Proof.
  intros Hc Hz Ht Hf out. subst out. unfold Gemm.
  rewrite Hc. cbn [tried]. unfold zero_m_or_n in Hz. rewrite Hz, Ht, Hf.
  cbn [negb]. fold (real_scalar alpha 1) (real_scalar beta 0).
  split; intros ->; [reflexivity |].
  run_flow; cbn [ret invoke]; auto.
Qed.

(** The complex branch of Gemm has the test the other way round: a
    supplied [alpha] whose complex value is not NaN is rejected. *)
Lemma Gemm_complex_alpha (a : Matrix) (beta : option Matrix) :
  checked check fgemm A (Some B) (Some C) opts = Next (params, ind) ->
  zero_m_or_n ind = false -> EqualTypes [A; B; C] = true ->
  mtype A = ComplexMatrix ->
  cmplx_IsNaN (ComplexValue a) = false ->
  Gemm kernel check A B C (Some a) beta opts st
  = mkOutcome (Error "alpha not a number") [] st.
Proof.
  intros Hc Hz Ht Hf Ha. unfold Gemm.
  rewrite Hc. cbn [tried]. unfold zero_m_or_n in Hz. rewrite Hz, Ht, Hf, Ha.
  reflexivity.
Qed.

(** The real branch of Trsm calls [alpha.FloatValue()] on a nil [alpha]. *)
Lemma Trsm_real_nil_alpha :
  checked check ftrsm A (Some B) None opts = Next (params, ind) ->
  EqualTypes [A; B] = true -> mtype A = FloatMatrix ->
  Trsm kernel check A B None opts st = mkOutcome nil_panic [] st.
Proof.
  intros Hc Ht Hf. unfold Trsm. rewrite Hc. cbn [tried].
  rewrite Ht, Hf. reflexivity.
Qed.

(** Everywhere else nil scalars are the defaults and pass. *)
Lemma nil_scalars_pass :
  let passes (f : Flow (Parameters * IndexOpts)) (out : Outcome) :=
    f = Next (params, ind) -> ret out = Nil \/ ret out = slice_panic in
  (EqualTypes [A; B; C] = true ->
     (zero_m_or_n ind = false ->
      passes (checked check fgemm A (Some B) (Some C) opts)
             (Gemm kernel check A B C None None opts st) /\
      passes (checked check fsymm A (Some B) (Some C) opts)
             (Symm kernel check A B C None None opts st)) /\
     passes (checked check fsyr2k A (Some B) (Some C) opts)
            (Syr2k kernel check A B C None None opts st) /\
     passes (checked check fsyr2k A (Some B) (Some C) opts)
            (Her2k kernel check A B C None None opts st)) /\
  (EqualTypes [A; C] = true ->
     passes (checked check fsyrk A None (Some C) opts)
            (Syrk kernel check A C None None opts st) /\
     passes (checked check fsyrk A None (Some C) opts)
            (Herk kernel check A C None None opts st)) /\
  (EqualTypes [A; B] = true ->
     passes (checked check ftrmm A (Some B) None opts)
            (Trmm kernel check A B None opts st) /\
     (mtype A = ComplexMatrix ->
      passes (checked check ftrsm A (Some B) None opts)
             (Trsm kernel check A B None opts st))).
Proof.
  intros passes. subst passes. cbv beta.
  repeat apply conj; intros Ht;
    repeat match goal with
           | |- _ /\ _ => split
           | |- zero_m_or_n _ = false -> _ =>
               let Hz := fresh in intros Hz; unfold zero_m_or_n in Hz
           | |- mtype _ = _ -> _ => let Hm := fresh in intros Hm
           end;
    intros Hc;
    unfold Gemm, Symm, Syr2k, Her2k, Syrk, Herk, Trmm, Trsm;
    rewrite Hc; cbn [tried];
    repeat match goal with
           | H : _ = false |- _ => rewrite H
           | H : mtype _ = ComplexMatrix |- _ => rewrite H
           end;
    rewrite Ht; cbn [negb];
    change (IsNaN 1%float) with false; cbn [orb];
    try change (IsNaN 0%float) with false; cbv iota;
    run_flow; cbn [ret invoke]; auto.
Qed.

End Scalars.

(** C1 fails on the code, in the complex branch of Gemm (lines 109-125).
    With complex 1 by 1 operands and the default options: the finite
    scalar [alpha = 2 + 0i] is rejected with "alpha not a number"; a NaN
    [alpha] is passed on to [zgemm]; and a real [beta = 2] ends up in
    [alpha], with a NaN [beta] passed to [zgemm]. *)
Theorem Gemm_complex_scalars_inverted :
  (cmplx_IsNaN (ComplexValue Fixture.ztwo) = false /\
   Gemm Fixture.idle_kernel check_level3_spec Fixture.zA Fixture.zB Fixture.zC
        (Some Fixture.ztwo) None Fixture.no_opts Fixture.complex_store
   = mkOutcome (Error "alpha not a number") [] Fixture.complex_store) /\
  (cmplx_IsNaN (ComplexValue Fixture.znan) = true /\
   IsNaN (FloatValue Fixture.znan) = true /\
   let out := Gemm Fixture.idle_kernel check_level3_spec Fixture.zA
                   Fixture.zB Fixture.zC (Some Fixture.znan) None
                   Fixture.no_opts Fixture.complex_store in
   ret out = Nil /\
   calls out = [zgemm PNoTrans PNoTrans 1 1 1 (complex NaN 0)
                      [complex 2 0] 1 [complex 3 0] 1 (complex 0 0)
                      [complex 5 0] 1]) /\
  (IsNaN (FloatValue Fixture.beta_two) = false /\
   let out := Gemm Fixture.idle_kernel check_level3_spec Fixture.zA
                   Fixture.zB Fixture.zC None (Some Fixture.beta_two)
                   Fixture.no_opts Fixture.complex_store in
   ret out = Nil /\
   calls out = [zgemm PNoTrans PNoTrans 1 1 1 (complex 2 0)
                      [complex 2 0] 1 [complex 3 0] 1 cmplx_NaN
                      [complex 5 0] 1]).
Proof.
  split; [| split].
  - split; reflexivity.
  - split; [reflexivity |]. split; [reflexivity |].
    split; vm_compute; reflexivity.
  - split; [reflexivity |]. split; vm_compute; reflexivity.
Qed.

(** C5 fails on the code, in the real branch of Trsm (line 841): with real
    1 by 1 operands, the default options and no [alpha], the call panics
    on the nil scalar, where Trmm on the same arguments calls [dtrmm] with
    [alpha = 1]. *)
Theorem Trsm_nil_alpha_panics :
  Trsm Fixture.idle_kernel check_level3_spec Fixture.rA Fixture.rB None
       Fixture.no_opts Fixture.real_store
  = mkOutcome (Panic "invalid memory address or nil pointer dereference") []
              Fixture.real_store /\
  (let out := Trmm Fixture.idle_kernel check_level3_spec Fixture.rA
                   Fixture.rB None Fixture.no_opts Fixture.real_store in
   ret out = Nil /\
   calls out = [dtrmm PLeft PLower PNoTrans PNonUnit 1 1 1%float
                      [2%float] 1 [3%float] 1]).
Proof.
  split; [reflexivity |]. split; vm_compute; reflexivity.
Qed.

(** * Further properties of Gesv *)

(** How far a call gets: it returns from the resolution, from a bounds
    check, from the type test, or it goes on to the kernel. *)
Lemma Gesv_stages (kernel : KernelCall -> KernelOut) (A B : Matrix)
    (ipiv : option loc) (ind : IndexOpts) (st : Store) :
  (exists r, Gesv_resolve A B ind = Return r /\
             Gesv kernel A B ipiv ind st = mkOutcome r [] st) \/
  (exists c r, Gesv_resolve A B ind = Next c /\
               Gesv_bounds A B ipiv st c = Return r /\
               Gesv kernel A B ipiv ind st = mkOutcome r [] st) \/
  (exists c, Gesv_resolve A B ind = Next c /\
             Gesv_bounds A B ipiv st c = Next c /\
             EqualTypes [A; B] = false /\
             Gesv kernel A B ipiv ind st
             = mkOutcome (Error "Gesv: arguments not of same type") [] st) \/
  (exists c, Gesv_resolve A B ind = Next c /\
             Gesv_bounds A B ipiv st c = Next c /\
             EqualTypes [A; B] = true /\
             Gesv kernel A B ipiv ind st = Gesv_call kernel A B ipiv st c).
Proof.
  unfold Gesv, Gesv_validate.
  destruct (Gesv_resolve A B ind) as [c | r]; [| left; eauto].
  right. destruct (Gesv_bounds A B ipiv st c) as [c' | r] eqn:Hb;
    [| left; eauto].
  assert (c' = c) as ->.
  { unfold Gesv_bounds, onError in Hb.
    repeat match type of Hb with
           | (if ?b then _ else _) = _ => destruct b
           end; try discriminate Hb.
    injection Hb as <-. reflexivity. }
  right. destruct (EqualTypes [A; B]); cbn [negb]; [right | left]; eauto.
Qed.

(** The messages of the bounds checks. *)
Lemma Gesv_bounds_messages (A B : Matrix) (ipiv : option loc) (st : Store)
    (c : GesvConfig) (r : Result) :
  Gesv_bounds A B ipiv st c = Return r ->
  r = Error "Gesv: offsetA" \/ r = Error "Gesv: offsetB" \/
  r = Error "Gesv: sizeA" \/ r = Error "Gesv: sizeB" \/
  r = Error "Gesv: size ipiv".
Proof.
  unfold Gesv_bounds, onError.
  repeat match goal with
         | |- (if ?b then _ else _) = _ -> _ => destruct b
         end; intros [= <-]; auto 6.
Qed.

(** The status message is none of the validation messages. *)
Lemma Gesv_status_message (i : Z) (msg : string) :
  Gesv_status i = Error msg ->
  i <> 0 /\ msg = "Gesv: lapack error: " +:+ pretty i.
Proof.
  unfold Gesv_status, onError.
  destruct (Z.eqb_spec i 0); cbn [negb]; [discriminate |].
  intros [= <-]. split; [assumption | reflexivity].
Qed.

Lemma lapack_message_head (tail : string) :
  exists t, "Gesv: lapack error: " +:+ tail = "Gesv: l" +:+ t.
Proof. eexists. reflexivity. Qed.

Ltac not_lapack H :=
  apply Gesv_status_message in H as [_ H];
  match type of H with
  | _ = _ +:+ ?tail =>
      let t := fresh "t" in
      let Ht := fresh "Ht" in
      destruct (lapack_message_head tail) as [t Ht];
      rewrite Ht in H; vm_compute in H; congruence
  end.

(** X1.  The squareness test belongs to the default of [n]: with [n]
    unset and [A] not square the call fails with "Gesv: A not square"
    before anything else; with [n] supplied the test is not made, whatever
    the shape of [A]. *)
Theorem Gesv_square_test (kernel : KernelCall -> KernelOut) (A B : Matrix)
    (ipiv : option loc) (ind : IndexOpts) (st : Store) :
  (N ind < 0 -> Rows A <> Cols A ->
   Gesv kernel A B ipiv ind st
   = mkOutcome (Error "Gesv: A not square") [] st) /\
  (0 <= N ind ->
   ret (Gesv kernel A B ipiv ind st) <> Error "Gesv: A not square").
Proof.
  split.
  - intros Hn Hsq. apply Gesv_resolved_returns. rewrite Gesv_resolve_eq.
    apply Z.ltb_lt in Hn. apply Z.eqb_neq in Hsq. rewrite Hn, Hsq.
    reflexivity.
  - intros Hn.
    destruct (Gesv_stages kernel A B ipiv ind st)
      as [(r & Hr & ->) | [(c & r & _ & Hb & ->) | [(c & _ & _ & _ & ->) |
          (c & _ & _ & _ & ->)]]]; cbn [ret].
    + rewrite Gesv_resolve_eq in Hr. apply Z.ltb_ge in Hn. rewrite Hn in Hr.
      cbn [andb] in Hr.
      repeat match type of Hr with
             | (if ?b then _ else _) = _ => destruct b
             end; try discriminate Hr; injection Hr as <-; discriminate.
    + apply Gesv_bounds_messages in Hb.
      destruct Hb as [-> | [-> | [-> | [-> | ->]]]]; discriminate.
    + discriminate.
    + destruct (Gesv_call_ret kernel A B ipiv st c) as [-> | (call & _ & ->)];
        [discriminate |].
      intros H. not_lapack H.
Qed.

(** A 2 by 3 matrix: refused with the options unset; with [n = 2] its
    leading 2 by 2 block is handed to the kernel. *)
Lemma Gesv_square_test_witness :
  Gesv Fixture.idle_kernel Sample.A23 Fixture.B21 None Gesv_unset
       Sample.wide_store
  = mkOutcome (Error "Gesv: A not square") [] Sample.wide_store /\
  ret (Gesv Fixture.idle_kernel Sample.A23 Fixture.B21 None Sample.n2_index
            Sample.wide_store) = Nil /\
  ret (Gesv Fixture.idle_kernel Sample.A23 Fixture.B21 None Sample.n2_index
            Sample.wide_store) <> Error "Gesv: A not square".
Proof.
  destruct (Gesv_square_test Fixture.idle_kernel Sample.A23 Fixture.B21 None
              Gesv_unset Sample.wide_store) as [H _].
  destruct (Gesv_square_test Fixture.idle_kernel Sample.A23 Fixture.B21 None
              Sample.n2_index Sample.wide_store) as [_ H'].
  split; [apply H; [reflexivity | discriminate] |].
  split; [vm_compute; reflexivity | apply H'; discriminate].
Defined.

(** After a resolution that falls through, dimensions and row strides are
    positive (for operands with non-negative [Rows()] and [Cols()]), and
    the offsets are the caller's. *)
Lemma Gesv_resolved_positive (A B : Matrix) (ind : IndexOpts) (c : GesvConfig) :
  0 <= Rows A -> 0 <= Cols B ->
  Gesv_resolve A B ind = Next c ->
  0 < N (gind c) /\ 0 < Nrhs (gind c) /\ 0 < arows c /\ 0 < brows c /\
  OffsetA (gind c) = OffsetA ind /\ OffsetB (gind c) = OffsetB ind.
Proof.
  intros HrA HcB Hres.
  destruct (Gesv_resolve_facts A B ind c Hres) as (-> & Hn & Hrhs & Hlda & Hldb).
  cbn [gind arows brows Gesv_config N Nrhs OffsetA OffsetB].
  repeat split.
  - unfold Gesv_N in *. destruct (Z.ltb_spec (N ind) 0); lia.
  - unfold Gesv_Nrhs in *. destruct (Z.ltb_spec (Nrhs ind) 0); lia.
  - unfold Gesv_arows, Gesv_LDa in *. rewrite GoInt_max_spec.
    destruct (Z.eqb_spec (LDa ind) 0); lia.
  - unfold Gesv_brows, Gesv_LDb in *. rewrite GoInt_max_spec.
    destruct (Z.eqb_spec (LDb ind) 0); lia.
Qed.

(** Lines 73-89 with non-negative offsets and size expressions that do not
    wrap around. *)
Lemma Gesv_bounds_eq (A B : Matrix) (ipiv : option loc) (ind : IndexOpts)
    (st : Store) (c : GesvConfig) :
  0 <= Rows A -> 0 <= Cols B ->
  Gesv_resolve A B ind = Next c ->
  0 <= OffsetA ind -> 0 <= OffsetB ind ->
  OffsetA ind + (N (gind c) - 1) * arows c + N (gind c) < 2 ^ 63 ->
  OffsetB ind + (Nrhs (gind c) - 1) * brows c + N (gind c) < 2 ^ 63 ->
  Gesv_bounds A B ipiv st c =
  if NumElements A <? OffsetA ind + (N (gind c) - 1) * arows c + N (gind c)
  then Return (Error "Gesv: sizeA")
  else if NumElements B <? OffsetB ind + (Nrhs (gind c) - 1) * brows c + N (gind c)
  then Return (Error "Gesv: sizeB")
  else if bool_decide (ipiv <> None) && (len (int32_slice st ipiv) <? N (gind c))
  then Return (Error "Gesv: size ipiv")
  else Next c.
Proof.
  intros HrA HcB Hres HoA HoB HfitA HfitB.
  destruct (Gesv_resolved_positive A B ind c HrA HcB Hres)
    as (HN & HR & Har & Hbr & HeA & HeB).
  unfold Gesv_bounds, onError. rewrite HeA, HeB.
  destruct (Z.ltb_spec (OffsetA ind) 0); [lia |].
  destruct (Z.ltb_spec (OffsetB ind) 0); [lia |].
  rewrite !size_expression by assumption. reflexivity.
Qed.

(** X2.  The storage-size checks are exact: an operand with fewer than
    [offset + (last_dim - 1) * row_stride + n] elements is refused with
    "Gesv: sizeA" (then "Gesv: sizeB"), and one with exactly that many
    passes the check.  (Resolution has passed, the offsets are not
    negative and the expressions do not wrap around.) *)
Theorem Gesv_size_boundary (kernel : KernelCall -> KernelOut) (A B : Matrix)
    (ipiv : option loc) (ind : IndexOpts) (st : Store) (c : GesvConfig) :
  0 <= Rows A -> 0 <= Cols B ->
  Gesv_resolve A B ind = Next c ->
  0 <= OffsetA ind -> 0 <= OffsetB ind ->
  let needA := OffsetA ind + (N (gind c) - 1) * arows c + N (gind c) in
  let needB := OffsetB ind + (Nrhs (gind c) - 1) * brows c + N (gind c) in
  needA < 2 ^ 63 -> needB < 2 ^ 63 ->
  let out := Gesv kernel A B ipiv ind st in
  (NumElements A < needA -> out = mkOutcome (Error "Gesv: sizeA") [] st) /\
  (needA <= NumElements A ->
   ret out <> Error "Gesv: sizeA" /\
   (NumElements B < needB -> out = mkOutcome (Error "Gesv: sizeB") [] st) /\
   (needB <= NumElements B -> ret out <> Error "Gesv: sizeB")).
Proof.
  intros HrA HcB Hres HoA HoB needA needB HfitA HfitB out.
  assert (Hbounds := Gesv_bounds_eq A B ipiv ind st c HrA HcB Hres HoA HoB
                       HfitA HfitB).
  fold needA needB in Hbounds.
  assert (Hlater : forall r,
            Gesv_bounds A B ipiv st c <> Return r ->
            r <> Error "Gesv: arguments not of same type" ->
            (forall i, Gesv_status i <> r) -> r <> slice_panic ->
            ret out <> r).
  { intros r Hnb Hnt Hns Hnp. subst out.
    destruct (Gesv_stages kernel A B ipiv ind st)
      as [(r' & Hr & _) | [(c' & r' & Hc & Hb & ->) | [(c' & _ & _ & _ & ->) |
          (c' & _ & _ & _ & ->)]]]; cbn [ret].
    - congruence.
    - assert (c' = c) as -> by congruence. intros ->. exact (Hnb Hb).
    - congruence.
    - destruct (Gesv_call_ret kernel A B ipiv st c') as [-> | (call & _ & ->)];
        [congruence | apply Hns]. }
  split.
  - intros Hlt. apply Z.ltb_lt in Hlt. rewrite Hlt in Hbounds.
    subst out. unfold Gesv, Gesv_validate. rewrite Hres, Hbounds. reflexivity.
  - intros Hge. apply Z.ltb_ge in Hge. rewrite Hge in Hbounds.
    split; [| split].
    + apply Hlater; try discriminate.
      * rewrite Hbounds.
        repeat match goal with
               | |- (if ?b then _ else _) <> _ => destruct b
               end; discriminate.
      * intros i H. not_lapack H.
    + intros Hlt. apply Z.ltb_lt in Hlt. rewrite Hlt in Hbounds.
      subst out. unfold Gesv, Gesv_validate. rewrite Hres, Hbounds.
      reflexivity.
    + intros HgeB. apply Z.ltb_ge in HgeB. rewrite HgeB in Hbounds.
      apply Hlater; try discriminate.
      * rewrite Hbounds.
        repeat match goal with
               | |- (if ?b then _ else _) <> _ => destruct b
               end; discriminate.
      * intros i H. not_lapack H.
Qed.

(** The 2 by 2 system: with three elements in [A] the call is refused,
    with four it passes the size check. *)
Lemma Gesv_size_boundary_witness :
  Gesv Fixture.idle_kernel Sample.A22_short Fixture.B21 None Gesv_unset
       Fixture.system_store
  = mkOutcome (Error "Gesv: sizeA") [] Fixture.system_store /\
  ret (Gesv Fixture.idle_kernel Fixture.A22 Fixture.B21 None Gesv_unset
            Fixture.system_store) <> Error "Gesv: sizeA".
Proof.
  split.
  - apply (Gesv_size_boundary Fixture.idle_kernel Sample.A22_short Fixture.B21
             None Gesv_unset Fixture.system_store
             (Gesv_config Sample.A22_short Fixture.B21 Gesv_unset));
      vm_compute; congruence.
  - apply (Gesv_size_boundary Fixture.idle_kernel Fixture.A22 Fixture.B21
             None Gesv_unset Fixture.system_store
             (Gesv_config Fixture.A22 Fixture.B21 Gesv_unset));
      vm_compute; congruence.
Defined.

(** A fallen-through resolution leaves the offsets as supplied. *)
Lemma Gesv_resolved_offsets (A B : Matrix) (ind : IndexOpts) (c : GesvConfig) :
  Gesv_resolve A B ind = Next c ->
  OffsetA (gind c) = OffsetA ind /\ OffsetB (gind c) = OffsetB ind.
Proof. intros H. apply Gesv_resolve_Next in H as ->. split; reflexivity. Qed.

(** The outcome once the bounds checks have returned. *)
Lemma Gesv_bounds_returns (kernel : KernelCall -> KernelOut) (A B : Matrix)
    (ipiv : option loc) (ind : IndexOpts) (st : Store) (c : GesvConfig)
    (r : Result) :
  Gesv_resolve A B ind = Next c ->
  Gesv_bounds A B ipiv st c = Return r ->
  Gesv kernel A B ipiv ind st = mkOutcome r [] st.
Proof.
  intros Hres Hb. unfold Gesv, Gesv_validate. rewrite Hres, Hb. reflexivity.
Qed.

(** The result of a call whose bounds checks have passed is none of their
    messages. *)
Lemma Gesv_bounds_passed (kernel : KernelCall -> KernelOut) (A B : Matrix)
    (ipiv : option loc) (ind : IndexOpts) (st : Store) (c : GesvConfig)
    (msg : string) :
  Gesv_resolve A B ind = Next c ->
  Gesv_bounds A B ipiv st c = Next c ->
  msg <> "Gesv: arguments not of same type" ->
  (forall t, msg <> "Gesv: l" +:+ t) ->
  ret (Gesv kernel A B ipiv ind st) <> Error msg.
Proof.
  intros Hres Hb Hty Hl.
  destruct (Gesv_stages kernel A B ipiv ind st)
    as [(r' & Hr & _) | [(c' & r' & Hc & Hb' & _) | [(c' & _ & _ & _ & ->) |
        (c' & _ & _ & _ & ->)]]]; cbn [ret]; try congruence.
  destruct (Gesv_call_ret kernel A B ipiv st c') as [-> | (call & _ & ->)];
    [discriminate |].
  intros H. apply Gesv_status_message in H as [_ H].
  destruct (lapack_message_head (pretty (info (kernel call)))) as [t Ht].
  rewrite Ht in H. exact (Hl t H).
Qed.

(** X3.  Offsets below zero are refused, [offsetA] before [offsetB], once
    the dimensions and strides have passed; offsets from zero on are never
    the reason of a failure. *)
Theorem Gesv_negative_offsets (kernel : KernelCall -> KernelOut)
    (A B : Matrix) (ipiv : option loc) (ind : IndexOpts) (st : Store)
    (c : GesvConfig) :
  Gesv_resolve A B ind = Next c ->
  let out := Gesv kernel A B ipiv ind st in
  (OffsetA ind < 0 -> out = mkOutcome (Error "Gesv: offsetA") [] st) /\
  (0 <= OffsetA ind -> OffsetB ind < 0 ->
   out = mkOutcome (Error "Gesv: offsetB") [] st) /\
  (0 <= OffsetA ind -> 0 <= OffsetB ind ->
   ret out <> Error "Gesv: offsetA" /\ ret out <> Error "Gesv: offsetB").
Proof.
  intros Hres out. subst out.
  destruct (Gesv_resolved_offsets A B ind c Hres) as [HeA HeB].
  split; [| split].
  - intros HA. apply (Gesv_bounds_returns kernel A B ipiv ind st c _ Hres).
    unfold Gesv_bounds, onError. rewrite HeA.
    apply Z.ltb_lt in HA. rewrite HA. reflexivity.
  - intros HA HB. apply (Gesv_bounds_returns kernel A B ipiv ind st c _ Hres).
    unfold Gesv_bounds, onError. rewrite HeA, HeB.
    apply Z.ltb_ge in HA. apply Z.ltb_lt in HB. rewrite HA, HB. reflexivity.
  - intros HA HB.
    destruct (Gesv_bounds A B ipiv st c) as [c' | r] eqn:Hb.
    + assert (c' = c) as ->.
      { destruct (Gesv_stages kernel A B ipiv ind st)
          as [(r' & Hr & _) | [(c0 & r' & Hc & Hb' & _) |
              [(c0 & Hc & Hb' & _) | (c0 & Hc & Hb' & _)]]]; congruence. }
      split; apply (Gesv_bounds_passed kernel A B ipiv ind st c _ Hres Hb);
        try discriminate; intros t H; vm_compute in H; congruence.
    + rewrite (Gesv_bounds_returns kernel A B ipiv ind st c r Hres Hb).
      cbn [ret]. unfold Gesv_bounds, onError in Hb. rewrite HeA, HeB in Hb.
      apply Z.ltb_ge in HA. apply Z.ltb_ge in HB. rewrite HA, HB in Hb.
      repeat match type of Hb with
             | (if ?b then _ else _) = _ => destruct b
             end; try discriminate Hb; injection Hb as <-;
        split; discriminate.
Qed.

Lemma Gesv_negative_offsets_witness :
  Gesv Fixture.idle_kernel Fixture.A22 Fixture.B21 None
       Sample.negative_offset_index Fixture.system_store
  = mkOutcome (Error "Gesv: offsetA") [] Fixture.system_store.
Proof.
  apply (Gesv_negative_offsets Fixture.idle_kernel Fixture.A22 Fixture.B21
           None Sample.negative_offset_index Fixture.system_store
           (Gesv_config Fixture.A22 Fixture.B21 Sample.negative_offset_index)).
  - reflexivity.
  - reflexivity.
Defined.

(** The bounds checks with an [ipiv], from those without. *)
Lemma Gesv_bounds_ipiv (A B : Matrix) (ipiv : option loc) (st : Store)
    (c : GesvConfig) :
  Gesv_bounds A B ipiv st c =
  match Gesv_bounds A B None st c with
  | Return r => Return r
  | Next _ =>
      if bool_decide (ipiv <> None) && (len (int32_slice st ipiv) <? N (gind c))
      then Return (Error "Gesv: size ipiv")
      else Next c
  end.
Proof.
  unfold Gesv_bounds, onError.
  repeat match goal with
         | |- context [if ?b then Return _ else _] =>
             lazymatch b with
             | context [bool_decide] => fail
             | _ => destruct b; [reflexivity |]
             end
         end.
  cbn [int32_slice].
  rewrite (bool_decide_eq_false_2 (@None loc <> None))
    by (intros H; exact (H eq_refl)).
  reflexivity.
Qed.

(** X4.  A supplied [ipiv] with fewer than [n] entries is refused with
    "Gesv: size ipiv" once the other bounds checks pass; one with [n]
    entries or more, and a nil [ipiv], never are. *)
Theorem Gesv_short_ipiv (kernel : KernelCall -> KernelOut) (A B : Matrix)
    (p : loc) (ind : IndexOpts) (st : Store) (c : GesvConfig) :
  Gesv_resolve A B ind = Next c ->
  Gesv_bounds A B None st c = Next c ->
  (len (int32_slice st (Some p)) < N (gind c) ->
   Gesv kernel A B (Some p) ind st
   = mkOutcome (Error "Gesv: size ipiv") [] st) /\
  (N (gind c) <= len (int32_slice st (Some p)) ->
   ret (Gesv kernel A B (Some p) ind st) <> Error "Gesv: size ipiv") /\
  ret (Gesv kernel A B None ind st) <> Error "Gesv: size ipiv".
Proof.
  intros Hres Hb.
  assert (Hp := Gesv_bounds_ipiv A B (Some p) st c). rewrite Hb in Hp.
  rewrite bool_decide_eq_true_2 in Hp by discriminate. cbn [andb] in Hp.
  split; [| split].
  - intros Hlt. apply Z.ltb_lt in Hlt. rewrite Hlt in Hp.
    exact (Gesv_bounds_returns kernel A B (Some p) ind st c _ Hres Hp).
  - intros Hge. apply Z.ltb_ge in Hge. rewrite Hge in Hp.
    apply (Gesv_bounds_passed kernel A B (Some p) ind st c _ Hres Hp);
      try discriminate; intros t H; vm_compute in H; congruence.
  - apply (Gesv_bounds_passed kernel A B None ind st c _ Hres Hb);
      try discriminate; intros t H; vm_compute in H; congruence.
Qed.

(** The 2 by 2 system with a pivot array of one entry. *)
Lemma Gesv_short_ipiv_witness :
  Gesv Fixture.idle_kernel Fixture.A22 Fixture.B21 (Some Sample.loc_piv1)
       Gesv_unset Sample.pivot_store
  = mkOutcome (Error "Gesv: size ipiv") [] Sample.pivot_store.
Proof.
  apply (Gesv_short_ipiv Fixture.idle_kernel Fixture.A22 Fixture.B21
           Sample.loc_piv1 Gesv_unset Sample.pivot_store
           (Gesv_config Fixture.A22 Fixture.B21 Gesv_unset)).
  - reflexivity.
  - reflexivity.
  - vm_compute. reflexivity.
Defined.

(** ** The arguments of the kernel call *)

(** The copy of line 97 has the elements of [A], and the array of line 95
    its [n] zeros. *)
Lemma Gesv_private_arrays (A : Matrix) (n : Z) (st : Store) :
  let p := (make_int32 n st).1 in
  let st1 := (make_int32 n st).2 in
  let A' := (MakeCopy A st1).1 in
  let st2 := (MakeCopy A st1).2 in
  (forall x, st !! elems A = Some x -> st2 !! elems A' = Some x) /\
  (is_Some (st !! elems A) ->
   st2 !! p = Some (IntBuf (replicate (Z.to_nat n) 0))).
Proof.
  intros p st1 A' st2.
  assert (Hp : st1 !! p = Some (IntBuf (replicate (Z.to_nat n) 0)))
    by apply lookup_insert_eq.
  split.
  - intros x Hx.
    assert (H1 : st1 !! elems A = Some x).
    { subst st1. rewrite make_int32_lookup by (rewrite Hx; eauto). exact Hx. }
    subst st2 A'. unfold MakeCopy. rewrite H1. cbn [fst snd elems].
    apply lookup_insert_eq.
  - intros HA. subst st2. rewrite MakeCopy_lookup by (rewrite Hp; eauto).
    exact Hp.
Qed.

Lemma slice_from_Some {T} (s : list T) (lo : Z) :
  0 <= lo <= len s -> slice_from s lo = Some (drop (Z.to_nat lo) s).
Proof.
  intros [H0 H1]. unfold slice_from.
  destruct (Z.leb_spec 0 lo); [| lia].
  destruct (Z.leb_spec lo (len s)); [| lia]. reflexivity.
Qed.

Lemma slice_to_Some {T} (s : list T) (hi : Z) :
  0 <= hi <= len s -> slice_to s hi = Some (take (Z.to_nat hi) s).
Proof.
  intros [H0 H1]. unfold slice_to.
  destruct (Z.leb_spec 0 hi); [| lia].
  destruct (Z.leb_spec hi (len s)); [| lia]. reflexivity.
Qed.

Lemma len_drop {T} (s : list T) (lo : Z) :
  0 <= lo <= len s -> len (drop (Z.to_nat lo) s) = len s - lo.
Proof. unfold len. intros H. rewrite length_drop. lia. Qed.

Section GesvCall.

Variable kernel : KernelCall -> KernelOut.
Variables (A B : Matrix) (ipiv : option loc) (st : Store) (c : GesvConfig).

Let offA := OffsetA (gind c).
Let offB := OffsetB (gind c).
Let hiA := GoInt.mul (LDa (gind c)) (LDb (gind c)).

(** Lines 93-107 on real operands whose slices are in range. *)
Lemma Gesv_call_real (a b : list float64) :
  mtype A = FloatMatrix ->
  st !! elems A = Some (FloatBuf a) -> st !! elems B = Some (FloatBuf b) ->
  0 <= offA <= len a -> 0 <= hiA <= len a - offA -> 0 <= offB <= len b ->
  calls (Gesv_call kernel A B ipiv st c)
  = [dgesv (N (gind c)) (Nrhs (gind c))
           (take (Z.to_nat hiA) (drop (Z.to_nat offA) a)) (LDa (gind c))
           (Gesv_pivots st ipiv (N (gind c)))
           (drop (Z.to_nat offB) b) (LDb (gind c))].
Proof.
  intros Hty Ha Hb HoA Hhi HoB. unfold Gesv_call.
  fold offA offB hiA.
  destruct ipiv as [p |].
  - rewrite Hty. unfold FloatArray. rewrite Ha, Hb.
    rewrite (slice_from_Some a offA HoA). cbn [sliced].
    rewrite slice_to_Some by (rewrite len_drop by exact HoA; exact Hhi).
    cbn [sliced]. rewrite (slice_from_Some b offB HoB). reflexivity.
  - destruct (Gesv_private_arrays A (N (gind c)) st) as [HA' Hp].
    destruct (Gesv_private_copy A (N (gind c)) st) as [Hty' Hfr].
    destruct (make_int32 (N (gind c)) st) as [p st1].
    cbn [fst snd] in HA', Hp, Hty', Hfr.
    destruct (MakeCopy A st1) as [A' st2].
    cbn [fst snd] in HA', Hp, Hty', Hfr.
    rewrite Hty', Hty. unfold FloatArray.
    rewrite (HA' _ Ha).
    destruct (Hfr (elems B)) as (HB2 & _ & _); [rewrite Hb; eauto |].
    rewrite HB2, Hb.
    rewrite (slice_from_Some a offA HoA). cbn [sliced].
    rewrite slice_to_Some by (rewrite len_drop by exact HoA; exact Hhi).
    cbn [sliced]. rewrite (slice_from_Some b offB HoB).
    cbn [calls int32_slice Gesv_pivots].
    rewrite Hp by (rewrite Ha; eauto). reflexivity.
Qed.

(** The same on complex operands. *)
Lemma Gesv_call_complex (a b : list complex128) :
  mtype A = ComplexMatrix ->
  st !! elems A = Some (ComplexBuf a) -> st !! elems B = Some (ComplexBuf b) ->
  0 <= offA <= len a -> 0 <= hiA <= len a - offA -> 0 <= offB <= len b ->
  calls (Gesv_call kernel A B ipiv st c)
  = [zgesv (N (gind c)) (Nrhs (gind c))
           (take (Z.to_nat hiA) (drop (Z.to_nat offA) a)) (LDa (gind c))
           (Gesv_pivots st ipiv (N (gind c)))
           (drop (Z.to_nat offB) b) (LDb (gind c))].
Proof.
  intros Hty Ha Hb HoA Hhi HoB. unfold Gesv_call.
  fold offA offB hiA.
  destruct ipiv as [p |].
  - rewrite Hty. unfold ComplexArray. rewrite Ha, Hb.
    rewrite (slice_from_Some a offA HoA). cbn [sliced].
    rewrite slice_to_Some by (rewrite len_drop by exact HoA; exact Hhi).
    cbn [sliced]. rewrite (slice_from_Some b offB HoB). reflexivity.
  - destruct (Gesv_private_arrays A (N (gind c)) st) as [HA' Hp].
    destruct (Gesv_private_copy A (N (gind c)) st) as [Hty' Hfr].
    destruct (make_int32 (N (gind c)) st) as [p st1].
    cbn [fst snd] in HA', Hp, Hty', Hfr.
    destruct (MakeCopy A st1) as [A' st2].
    cbn [fst snd] in HA', Hp, Hty', Hfr.
    rewrite Hty', Hty. unfold ComplexArray.
    rewrite (HA' _ Ha).
    destruct (Hfr (elems B)) as (HB2 & _ & _); [rewrite Hb; eauto |].
    rewrite HB2, Hb.
    rewrite (slice_from_Some a offA HoA). cbn [sliced].
    rewrite slice_to_Some by (rewrite len_drop by exact HoA; exact Hhi).
    cbn [sliced]. rewrite (slice_from_Some b offB HoB).
    cbn [calls int32_slice Gesv_pivots].
    rewrite Hp by (rewrite Ha; eauto). reflexivity.
Qed.

End GesvCall.

(** The call made when every check has passed and the slice of line 104 is
    in range. *)
Lemma Gesv_call_arguments (kernel : KernelCall -> KernelOut) (A B : Matrix)
    (ipiv : option loc) (ind : IndexOpts) (st : Store) (c : GesvConfig) :
  0 <= Rows A -> 0 <= Cols B ->
  Gesv_resolve A B ind = Next c ->
  Gesv_bounds A B ipiv st c = Next c ->
  EqualTypes [A; B] = true ->
  well_stored st A -> well_stored st B ->
  OffsetA ind + (N (gind c) - 1) * arows c + N (gind c) < 2 ^ 63 ->
  OffsetB ind + (Nrhs (gind c) - 1) * brows c + N (gind c) < 2 ^ 63 ->
  LDa (gind c) * LDb (gind c) < 2 ^ 63 ->
  OffsetA ind + LDa (gind c) * LDb (gind c) <= NumElements A ->
  calls (Gesv kernel A B ipiv ind st) = [Gesv_kernel_call A B ipiv st c].
Proof.
  intros HrA HcB Hres Hb Heq HsA HsB HfitA HfitB Hmul Hhi.
  destruct (Gesv_offsets_within_capacity A B ipiv ind st c HrA HcB Hres Hb
              HfitA HfitB) as [HoA HoB].
  destruct (Gesv_resolved_offsets A B ind c Hres) as [HeA HeB].
  destruct (Gesv_resolve_facts A B ind c Hres) as (Hc & _ & _ & Hlda & Hldb).
  assert (Hpos : 0 < LDa (gind c) /\ 0 < LDb (gind c)).
  { rewrite Hc. cbn [gind Gesv_config LDa LDb]. lia. }
  assert (Hwrap : GoInt.mul (LDa (gind c)) (LDb (gind c))
                  = LDa (gind c) * LDb (gind c)).
  { apply wrap_in_range. unfold GoInt.in_range. nia. }
  unfold Gesv, Gesv_validate. rewrite Hres, Hb, Heq. cbn [negb].
  apply EqualTypes_pair in Heq.
  unfold Gesv_kernel_call, well_stored in *. rewrite Heq in HsB.
  destruct (mtype A) eqn:Hty;
    destruct HsA as (a & Ha & Hla); destruct HsB as (b & Hb' & Hlb).
  - unfold FloatArray. rewrite Ha, Hb'.
    apply Gesv_call_real; try assumption; rewrite ?Hwrap, ?HeA, ?HeB; nia.
  - unfold ComplexArray. rewrite Ha, Hb'.
    apply Gesv_call_complex; try assumption; rewrite ?Hwrap, ?HeA, ?HeB; nia.
Qed.

(** X5.  When resolution and the bounds checks pass, the operands have one
    type and are stored with [NumElements()] elements, and [A] has
    [ldA * ldB] elements from [offsetA] on (nothing wrapping around), Gesv
    makes one kernel call: [dgesv] or [zgesv] by the type of [A], with the
    resolved [n], [nrhs], [ldA], [ldB], the [ldA * ldB] elements of [A]
    from [offsetA], [B] from [offsetB], and the supplied [ipiv] or an
    array of [n] zeros. *)
Theorem Gesv_kernel_arguments (kernel : KernelCall -> KernelOut)
    (A B : Matrix) (ipiv : option loc) (ind : IndexOpts) (st : Store)
    (c : GesvConfig) :
  0 <= Rows A -> 0 <= Cols B ->
  Gesv_resolve A B ind = Next c ->
  Gesv_bounds A B ipiv st c = Next c ->
  EqualTypes [A; B] = true ->
  well_stored st A -> well_stored st B ->
  OffsetA ind + (N (gind c) - 1) * arows c + N (gind c) < 2 ^ 63 ->
  OffsetB ind + (Nrhs (gind c) - 1) * brows c + N (gind c) < 2 ^ 63 ->
  LDa (gind c) * LDb (gind c) < 2 ^ 63 ->
  OffsetA ind + LDa (gind c) * LDb (gind c) <= NumElements A ->
  calls (Gesv kernel A B ipiv ind st) = [Gesv_kernel_call A B ipiv st c] /\
  (ret (Gesv kernel A B ipiv ind st) = Nil <->
   info (kernel (Gesv_kernel_call A B ipiv st c)) = 0).
Proof.
  intros HrA HcB Hres Hb Heq HsA HsB HfitA HfitB Hmul Hhi.
  assert (Hcall := Gesv_call_arguments kernel A B ipiv ind st c HrA HcB Hres
                     Hb Heq HsA HsB HfitA HfitB Hmul Hhi).
  split; [exact Hcall |].
  destruct (Gesv_stages kernel A B ipiv ind st)
    as [(r & _ & Ho) | [(c' & r & _ & _ & Ho) | [(c' & _ & _ & _ & Ho) |
        (c' & _ & _ & _ & Ho)]]]; rewrite Ho in Hcall |- *;
    try discriminate Hcall.
  destruct (Gesv_call_ret kernel A B ipiv st c') as [Hp | (call & Hc & ->)].
  - unfold Gesv_call in Hcall, Hp.
    exfalso. revert Hcall Hp.
    destruct ipiv as [p |];
      [| destruct (make_int32 (N (gind c')) st) as [p st1];
         destruct (MakeCopy A st1) as [A' st2] ];
      match goal with |- context [mtype ?X] => destruct (mtype X) end;
      unfold sliced;
      repeat match goal with
             | |- context [match ?o with Some _ => _ | None => _ end] =>
                 destruct o; [| discriminate]
             end;
      cbn [ret]; unfold Gesv_status, onError;
      match goal with |- context [negb ?b] => destruct b end; discriminate.
  - rewrite Hc in Hcall. injection Hcall as ->.
    unfold Gesv_status, onError.
    destruct (Z.eqb_spec (info (kernel (Gesv_kernel_call A B ipiv st c))) 0);
      cbn [negb]; split; congruence.
Qed.

(** The 2 by 2 system with the unset options. *)
Lemma Gesv_kernel_arguments_witness :
  calls (Gesv Fixture.solving_kernel Fixture.A22 Fixture.B21 None Gesv_unset
              Fixture.system_store)
  = [dgesv 2 1 [2; 1; 1; 1]%float 2 [0; 0] [3; 2]%float 2].
Proof.
  apply (Gesv_kernel_arguments Fixture.solving_kernel Fixture.A22 Fixture.B21
           None Gesv_unset Fixture.system_store
           (Gesv_config Fixture.A22 Fixture.B21 Gesv_unset));
    try (vm_compute; congruence);
    eexists; split; reflexivity.
Defined.

(** X6.  A dense system with the options unset passes every check: for
    [A] dense [n] by [n] and [B] dense [n] by [nrhs] of one type, [n] and
    [nrhs] positive (and [n * n], [n * nrhs] below [2^63]), with no [ipiv]
    or one of [n] entries at least, Gesv calls the kernel once with [n],
    [nrhs], all of [A], stride [n], the pivots, all of [B], stride [n]. *)
Theorem Gesv_dense_defaults (kernel : KernelCall -> KernelOut) (A B : Matrix)
    (ipiv : option loc) (st : Store) (n nrhs : Z) :
  0 < n -> 0 < nrhs -> n * n < 2 ^ 63 -> n * nrhs < 2 ^ 63 ->
  dense st A n n -> dense st B n nrhs -> EqualTypes [A; B] = true ->
  (forall p, ipiv = Some p -> n <= len (int32_slice st (Some p))) ->
  calls (Gesv kernel A B ipiv Gesv_unset st)
  = [match mtype A with
     | FloatMatrix =>
         dgesv n nrhs (FloatArray st A) n (Gesv_pivots st ipiv n)
               (FloatArray st B) n
     | ComplexMatrix =>
         zgesv n nrhs (ComplexArray st A) n (Gesv_pivots st ipiv n)
               (ComplexArray st B) n
     end].
Proof.
  intros Hn Hrhs Hnn Hnr (HrA & HcA & HlA & HeA & HsA)
         (HrB & HcB & HlB & HeB & HsB) Heq Hpiv.
  set (c := Gesv_config A B Gesv_unset).
  assert (Hmax : GoInt.max 1 n = n) by (rewrite GoInt_max_spec; lia).
  assert (Hc : c = mkGesvConfig (mkIndexOpts (-1) n (-1) nrhs n n 0 0 0 0) n n).
  { subst c. unfold Gesv_config, Gesv_N, Gesv_Nrhs, Gesv_LDa, Gesv_LDb,
      Gesv_arows, Gesv_brows. cbn.
    rewrite HrA, HcB, HlA, HlB, HrB, Hmax. reflexivity. }
  assert (Hres : Gesv_resolve A B Gesv_unset = Next c).
  { rewrite Gesv_resolve_eq. fold c. rewrite Hc.
    unfold Gesv_N, Gesv_Nrhs, Gesv_LDa, Gesv_LDb. cbn.
    rewrite HrA, HcA, HcB, HlA, HlB, Hmax, Z.eqb_refl. cbn [negb].
    destruct (Z.eqb_spec n 0); [lia |].
    destruct (Z.eqb_spec nrhs 0); [lia |]. cbn [orb].
    destruct (Z.ltb_spec n n); [lia |]. reflexivity. }
  assert (HfA : OffsetA Gesv_unset + (N (gind c) - 1) * arows c + N (gind c)
                = n * n) by (rewrite Hc; cbn; lia).
  assert (HfB : OffsetB Gesv_unset + (Nrhs (gind c) - 1) * brows c + N (gind c)
                = n * nrhs) by (rewrite Hc; cbn; lia).
  assert (HRA : 0 <= Rows A) by lia.
  assert (HCB : 0 <= Cols B) by lia.
  assert (HfitA : OffsetA Gesv_unset + (N (gind c) - 1) * arows c + N (gind c)
                  < 2 ^ 63) by (rewrite HfA; exact Hnn).
  assert (HfitB : OffsetB Gesv_unset + (Nrhs (gind c) - 1) * brows c + N (gind c)
                  < 2 ^ 63) by (rewrite HfB; exact Hnr).
  assert (Hb : Gesv_bounds A B ipiv st c = Next c).
  { rewrite (Gesv_bounds_eq A B ipiv Gesv_unset st c HRA HCB Hres)
      by (assumption || (cbn; lia)).
    rewrite HfA, HfB, HeA, HeB, !Z.ltb_irrefl.
    destruct ipiv as [p |].
    - specialize (Hpiv p eq_refl).
      assert (Hlen : (len (int32_slice st (Some p)) <? N (gind c)) = false).
      { apply Z.ltb_ge. rewrite Hc. cbn. exact Hpiv. }
      rewrite Hlen, andb_false_r. reflexivity.
    - rewrite (bool_decide_eq_false_2 (@None loc <> None))
        by (intros H; exact (H eq_refl)).
      reflexivity. }
  rewrite (Gesv_call_arguments kernel A B ipiv Gesv_unset st c);
    try assumption.
  - f_equal. unfold Gesv_kernel_call. rewrite Hc. cbn [gind N Nrhs LDa LDb OffsetA OffsetB].
    assert (Hwrap : GoInt.mul n n = n * n)
      by (apply wrap_in_range; unfold GoInt.in_range; nia).
    rewrite Hwrap. change (Z.to_nat 0) with 0%nat. rewrite !drop_0.
    apply EqualTypes_pair in Heq. unfold well_stored in HsA, HsB.
    rewrite Heq in HsB.
    destruct (mtype A); destruct HsA as (a & Ha & Hla);
      destruct HsB as (b & Hb' & Hlb);
      unfold FloatArray, ComplexArray; rewrite Ha;
      (rewrite take_ge by (unfold len in Hla; lia)); reflexivity.
  - rewrite Hc. cbn. nia.
  - rewrite Hc. cbn. lia.
Qed.

(** The 2 by 2 system with a pivot array of two entries. *)
Lemma Gesv_dense_defaults_witness :
  calls (Gesv Fixture.idle_kernel Fixture.A22 Fixture.B21
              (Some Fixture.loc_piv) Gesv_unset Sample.pivot_store)
  = [dgesv 2 1 [2; 1; 1; 1]%float 2 [0; 0] [3; 2]%float 2].
Proof.
  apply (Gesv_dense_defaults Fixture.idle_kernel Fixture.A22 Fixture.B21
           (Some Fixture.loc_piv) Sample.pivot_store 2 1);
    try (vm_compute; congruence).
  - repeat split. eexists; split; reflexivity.
  - repeat split. eexists; split; reflexivity.
  - intros p [= <-]. vm_compute. discriminate.
Defined.

(** ** What Gesv leaves in the store *)

Lemma write_back_mismatch_float (st : Store) (l : loc) (lo hi : Z)
    (old : list float64) (v : list Z) :
  st !! l = Some (FloatBuf old) -> write_back st l lo hi (IntBuf v) = st.
Proof. intros H. unfold write_back. rewrite H. reflexivity. Qed.

Lemma write_back_mismatch_complex (st : Store) (l : loc) (lo hi : Z)
    (old : list complex128) (v : list Z) :
  st !! l = Some (ComplexBuf old) -> write_back st l lo hi (IntBuf v) = st.
Proof. intros H. unfold write_back. rewrite H. reflexivity. Qed.

Lemma overwrite_all {T} (old new : list T) :
  overwrite old 0 (len old) new = new.
Proof.
  unfold overwrite, len. rewrite Nat2Z.id, drop_all, app_nil_r.
  reflexivity.
Qed.

Lemma Gesv_written_A_float (st : Store) (A B : Matrix) (p : loc)
    (ind : IndexOpts) (hiA : Z) (out : KernelOut) (a x : list float64) :
  elems A <> elems B ->
  st !! elems A = Some (FloatBuf a) -> wA out = FloatBuf x ->
  Gesv_written st A B p ind hiA out !! elems A
  = Some (FloatBuf (overwrite a (OffsetA ind) (OffsetA ind + hiA) x)).
Proof.
  intros HB Ha Hx. unfold Gesv_written. rewrite Hx. cbv zeta.
  rewrite write_back_lookup_ne by exact HB.
  assert (H1 := write_back_lookup_float st (elems A) (OffsetA ind)
                  (OffsetA ind + hiA) a x Ha).
  destruct (decide (elems A = p)) as [<- | Hp].
  - erewrite write_back_mismatch_float by exact H1. exact H1.
  - rewrite write_back_lookup_ne by exact Hp. exact H1.
Qed.

Lemma Gesv_written_A_complex (st : Store) (A B : Matrix) (p : loc)
    (ind : IndexOpts) (hiA : Z) (out : KernelOut) (a x : list complex128) :
  elems A <> elems B ->
  st !! elems A = Some (ComplexBuf a) -> wA out = ComplexBuf x ->
  Gesv_written st A B p ind hiA out !! elems A
  = Some (ComplexBuf (overwrite a (OffsetA ind) (OffsetA ind + hiA) x)).
Proof.
  intros HB Ha Hx. unfold Gesv_written. rewrite Hx. cbv zeta.
  rewrite write_back_lookup_ne by exact HB.
  assert (H1 := write_back_lookup_complex st (elems A) (OffsetA ind)
                  (OffsetA ind + hiA) a x Ha).
  destruct (decide (elems A = p)) as [<- | Hp].
  - erewrite write_back_mismatch_complex by exact H1. exact H1.
  - rewrite write_back_lookup_ne by exact Hp. exact H1.
Qed.

Lemma Gesv_written_pivots (st : Store) (A B : Matrix) (p : loc)
    (ind : IndexOpts) (hiA : Z) (out : KernelOut) (v : list Z) :
  p <> elems A -> p <> elems B -> st !! p = Some (IntBuf v) ->
  Gesv_written st A B p ind hiA out !! p = Some (IntBuf (wpiv out)).
Proof.
  intros HA HB Hv. unfold Gesv_written. cbv zeta.
  rewrite write_back_lookup_ne by exact HB.
  match goal with
  | |- write_back ?S _ _ _ _ !! _ = _ =>
      assert (HS : S !! p = Some (IntBuf v))
        by (rewrite write_back_lookup_ne by exact HA; exact Hv)
  end.
  unfold write_back at 1. rewrite HS. rewrite lookup_insert_eq.
  unfold buf_len. rewrite HS. rewrite overwrite_all. reflexivity.
Qed.

(** X7.  With an [ipiv], a call that reaches the kernel works in place:
    the [ldA * ldB] elements of [A] from [offsetA] are overwritten with
    what the kernel left (the factors), [ipiv] holds the pivots, [B] from
    [offsetB] what the kernel left (the solution), and no other array of
    the store has changed. *)
Theorem Gesv_with_ipiv (kernel : KernelCall -> KernelOut) (A B : Matrix)
    (p : loc) (ind : IndexOpts) (st : Store) (call : KernelCall) :
  calls (Gesv kernel A B (Some p) ind st) = [call] ->
  elems A <> elems B -> p <> elems A -> p <> elems B ->
  let out := Gesv kernel A B (Some p) ind st in
  let hiA := GoInt.mul (Gesv_LDa A ind) (Gesv_LDb B ind) in
  (forall l, l <> elems A -> l <> p -> l <> elems B ->
             heap out !! l = st !! l) /\
  (forall v, st !! p = Some (IntBuf v) ->
             heap out !! p = Some (IntBuf (wpiv (kernel call)))) /\
  (forall a x, st !! elems A = Some (FloatBuf a) ->
     wA (kernel call) = FloatBuf x ->
     heap out !! elems A
     = Some (FloatBuf (overwrite a (OffsetA ind) (OffsetA ind + hiA) x))) /\
  (forall a x, st !! elems A = Some (ComplexBuf a) ->
     wA (kernel call) = ComplexBuf x ->
     heap out !! elems A
     = Some (ComplexBuf (overwrite a (OffsetA ind) (OffsetA ind + hiA) x))) /\
  (forall b x, st !! elems B = Some (FloatBuf b) ->
     wout (kernel call) = FloatBuf x ->
     heap out !! elems B
     = Some (FloatBuf (overwrite b (OffsetB ind) (len b) x))) /\
  (forall b x, st !! elems B = Some (ComplexBuf b) ->
     wout (kernel call) = ComplexBuf x ->
     heap out !! elems B
     = Some (ComplexBuf (overwrite b (OffsetB ind) (len b) x))).
Proof.
  intros Hcalls HAB HpA HpB out hiA.
  destruct (Gesv_reaches_kernel kernel A B (Some p) ind st call Hcalls)
    as [_ Hout].
  subst out. rewrite Hout in Hcalls |- *. clear Hout.
  assert (Hheap : heap (Gesv_call kernel A B (Some p) st (Gesv_config A B ind))
                  = Gesv_written st A B p (gind (Gesv_config A B ind)) hiA
                                 (kernel call)).
  { revert Hcalls. unfold Gesv_call.
    destruct (mtype A); unfold sliced;
      repeat match goal with
             | |- context [match ?o with Some _ => _ | None => _ end] =>
                 destruct o; [| discriminate]
             end;
      cbn [calls heap]; intros [= <-]; reflexivity. }
  rewrite Hheap.
  repeat apply conj.
  - intros l HlA Hlp HlB. apply Gesv_written_frame; assumption.
  - intros v Hv. eapply Gesv_written_pivots; eassumption.
  - intros a x Ha Hx.
    exact (Gesv_written_A_float st A B p (gind (Gesv_config A B ind)) hiA
             (kernel call) a x HAB Ha Hx).
  - intros a x Ha Hx.
    exact (Gesv_written_A_complex st A B p (gind (Gesv_config A B ind)) hiA
             (kernel call) a x HAB Ha Hx).
  - intros b x Hb Hx.
    exact (Gesv_written_B_float st A B p (gind (Gesv_config A B ind)) hiA
             (kernel call) b x (not_eq_sym HAB) (not_eq_sym HpB) Hb Hx).
  - intros b x Hb Hx.
    exact (Gesv_written_B_complex st A B p (gind (Gesv_config A B ind)) hiA
             (kernel call) b x (not_eq_sym HAB) (not_eq_sym HpB) Hb Hx).
Qed.

(** The 2 by 2 system solved in place. *)
Lemma Gesv_with_ipiv_witness :
  let out := Gesv Fixture.solving_kernel Fixture.A22 Fixture.B21
                  (Some Fixture.loc_piv) Gesv_unset Sample.pivot_store in
  heap out !! Fixture.locA = Some (FloatBuf [2; 0.5; 1; 0.5]%float) /\
  heap out !! Fixture.loc_piv = Some (IntBuf [1; 2]) /\
  heap out !! Fixture.locB = Some (FloatBuf [1; 1]%float) /\
  heap out !! Sample.loc_piv1 = Some (IntBuf [0]).
Proof.
  intros out.
  destruct (Gesv_with_ipiv Fixture.solving_kernel Fixture.A22 Fixture.B21
              Fixture.loc_piv Gesv_unset Sample.pivot_store
              (dgesv 2 1 [2; 1; 1; 1]%float 2 [0; 0] [3; 2]%float 2))
    as (Hfr & Hpiv & HA & _ & HB & _);
    try discriminate; [vm_compute; reflexivity |].
  unfold out.
  split;
    [exact (HA [2; 1; 1; 1]%float [2; 0.5; 1; 0.5]%float eq_refl eq_refl) |].
  split; [exact (Hpiv [0; 0] eq_refl) |].
  split; [exact (HB [3; 2]%float [1; 1]%float eq_refl eq_refl) |].
  refine (eq_trans (Hfr Sample.loc_piv1 _ _ _) eq_refl); discriminate.
Defined.

(** X8.  How Gesv ends.  Either no kernel call was made, or one: then the
    result is nil when the kernel status is 0 and the error "Gesv: lapack
    error: <status>" otherwise.  An error or nil returned without a kernel
    call leaves the store as it was, and such a nil comes from a zero [n]
    or [nrhs] only. *)
Theorem Gesv_results (kernel : KernelCall -> KernelOut) (A B : Matrix)
    (ipiv : option loc) (ind : IndexOpts) (st : Store) :
  let out := Gesv kernel A B ipiv ind st in
  (calls out = [] \/
   exists call,
     calls out = [call] /\
     (info (kernel call) = 0 -> ret out = Nil) /\
     (info (kernel call) <> 0 ->
      ret out = Error ("Gesv: lapack error: " +:+ pretty (info (kernel call))))) /\
  (forall msg, ret out = Error msg -> calls out = [] -> heap out = st) /\
  (ret out = Nil -> calls out = [] ->
   heap out = st /\ (Gesv_N A ind = 0 \/ Gesv_Nrhs B ind = 0)).
Proof.
  intros out. subst out.
  destruct (Gesv_stages kernel A B ipiv ind st)
    as [(r & Hr & ->) | [(c & r & _ & Hb & ->) | [(c & _ & _ & _ & ->) |
        (c & _ & _ & _ & ->)]]]; cbn [ret calls heap].
  - split; [left; reflexivity |]. split; [reflexivity |].
    intros -> _. split; [reflexivity |].
    rewrite Gesv_resolve_eq in Hr.
    destruct ((N ind <? 0) && negb (Rows A =? Cols A)); [discriminate |].
    destruct (Z.eqb_spec (Gesv_N A ind) 0); [left; assumption |].
    destruct (Z.eqb_spec (Gesv_Nrhs B ind) 0); [right; assumption |].
    cbn [orb] in Hr.
    repeat match type of Hr with
           | (if ?b then _ else _) = _ => destruct b
           end; discriminate.
  - split; [left; reflexivity |]. split; [reflexivity |].
    intros -> _. apply Gesv_bounds_messages in Hb.
    destruct Hb as [H | [H | [H | [H | H]]]]; discriminate.
  - split; [left; reflexivity |]. split; [reflexivity |]. discriminate.
  - destruct (Gesv_call_ret kernel A B ipiv st c) as [Hp | (call & Hc & Hret)].
    + rewrite Hp. split; [| split; discriminate].
      destruct (calls (Gesv_call kernel A B ipiv st c)) as [| call l] eqn:Hcs;
        [left; reflexivity |].
      exfalso. revert Hp Hcs. unfold Gesv_call.
      destruct ipiv as [p |];
        [| destruct (make_int32 (N (gind c)) st) as [p st1];
           destruct (MakeCopy A st1) as [A' st2] ];
        match goal with |- context [mtype ?X] => destruct (mtype X) end;
        unfold sliced;
        repeat match goal with
               | |- context [match ?o with Some _ => _ | None => _ end] =>
                   destruct o; [| discriminate]
               end;
        cbn [ret]; unfold Gesv_status, onError;
        match goal with |- context [negb ?b] => destruct b end; discriminate.
    + rewrite Hc, Hret. split; [| split; discriminate].
      right. exists call. split; [reflexivity |].
      unfold Gesv_status, onError.
      destruct (Z.eqb_spec (info (kernel call)) 0); cbn [negb];
        split; congruence.
Qed.

(** The 2 by 2 system with a kernel that reports status 2. *)
Lemma Gesv_results_witness :
  ret (Gesv Sample.singular_kernel Fixture.A22 Fixture.B21 None Gesv_unset
            Fixture.system_store)
  = Error "Gesv: lapack error: 2".
Proof.
  destruct (Gesv_results Sample.singular_kernel Fixture.A22 Fixture.B21 None
              Gesv_unset Fixture.system_store) as [[H | (call & Hc & _ & H)] _].
  - vm_compute in H. discriminate H.
  - vm_compute in Hc. injection Hc as <-.
    rewrite H by (vm_compute; discriminate). reflexivity.
Defined.

(** * Further properties of level 3 *)

Lemma slice_from_bound_float (st : Store) (X : Matrix) (off : Z)
    (s : list float64) :
  slice_from (FloatArray st X) off = Some s ->
  0 <= off <= buf_len st (elems X).
Proof.
  unfold slice_from, FloatArray, buf_len.
  destruct (Z.leb_spec 0 off); [| discriminate].
  destruct (st !! elems X) as [[v | v | v] |];
    match goal with
    | |- context [?a <=? ?b] => destruct (Z.leb_spec a b)
    end; try discriminate; intros _; unfold len in *; cbn [length] in *; lia.
Qed.

Lemma slice_from_bound_complex (st : Store) (X : Matrix) (off : Z)
    (s : list complex128) :
  slice_from (ComplexArray st X) off = Some s ->
  0 <= off <= buf_len st (elems X).
Proof.
  unfold slice_from, ComplexArray, buf_len.
  destruct (Z.leb_spec 0 off); [| discriminate].
  destruct (st !! elems X) as [[v | v | v] |];
    match goal with
    | |- context [?a <=? ?b] => destruct (Z.leb_spec a b)
    end; try discriminate; intros _; unfold len in *; cbn [length] in *; lia.
Qed.

Ltac run_flow_eqn :=
  unfold tried, sliced;
  repeat match goal with
         | |- context [if ?b then _ else _] => destruct b eqn:?
         | |- context [match mtype ?A with FloatMatrix => _ | ComplexMatrix => _ end] =>
             destruct (mtype A) eqn:?
         | |- context [match ?o with Some _ => _ | None => _ end] =>
             destruct o eqn:?
         end.

Ltac outcome_leaf params ind :=
  first
    [ left; eexists; split; [| reflexivity]; discriminate
    | right; left; exists params, ind; split; reflexivity
    | right; right; exists params, ind; eexists;
      split; [reflexivity |];
      split; [| reflexivity];
      eauto using slice_from_bound_float, slice_from_bound_complex ].

Section Level3Outcomes.

Variable kernel : KernelCall -> KernelOut.
Variable check : IndexOpts -> funcNum -> Matrix -> option Matrix ->
                 option Matrix -> Parameters -> IndexOpts * option string.
Variables (A B C : Matrix) (alpha beta : option Matrix) (opts : Opts).
Variable st : Store.

Lemma checked_returns_error (fn : funcNum) (X : Matrix) (Y Z : option Matrix)
    (r : Result) :
  checked check fn X Y Z opts = Return r -> exists e, r = Error e.
Proof.
  unfold checked. destruct (GetParameters opts) as [params | e].
  - destruct (check (GetIndexOpts opts) fn X Y Z params) as [ind [err |]];
      [| discriminate]. intros [= <-]. eauto.
  - intros [= <-]. eauto.
Qed.

Ltac outcome fn X Y Z :=
  unfold level3_outcome;
  let params := fresh "params" in
  let ind := fresh "ind" in
  let r := fresh "r" in
  let Hc := fresh "Hc" in
  destruct (checked check fn X Y Z opts) as [[params ind] | r] eqn:Hc;
  cbn [tried];
  [ run_flow_eqn; outcome_leaf params ind
  | destruct (checked_returns_error fn X Y Z r Hc) as [e ->];
    left; eexists; split; [| reflexivity]; discriminate ].

Lemma Gemm_outcome :
  level3_outcome kernel st C OffsetC
    (checked check fgemm A (Some B) (Some C) opts)
    (Gemm kernel check A B C alpha beta opts st).
Proof. unfold Gemm. outcome fgemm A (Some B) (Some C). Qed.

Lemma Symm_outcome :
  level3_outcome kernel st C OffsetC
    (checked check fsymm A (Some B) (Some C) opts)
    (Symm kernel check A B C alpha beta opts st).
Proof. unfold Symm. outcome fsymm A (Some B) (Some C). Qed.

Lemma Syrk_outcome :
  level3_outcome kernel st C OffsetC
    (checked check fsyrk A None (Some C) opts)
    (Syrk kernel check A C alpha beta opts st).
Proof. unfold Syrk. outcome fsyrk A (@None Matrix) (Some C). Qed.

Lemma Herk_outcome :
  level3_outcome kernel st C OffsetC
    (checked check fsyrk A None (Some C) opts)
    (Herk kernel check A C alpha beta opts st).
Proof. unfold Herk. outcome fsyrk A (@None Matrix) (Some C). Qed.

Lemma Syr2k_outcome :
  level3_outcome kernel st C OffsetC
    (checked check fsyr2k A (Some B) (Some C) opts)
    (Syr2k kernel check A B C alpha beta opts st).
Proof. unfold Syr2k. outcome fsyr2k A (Some B) (Some C). Qed.

Lemma Her2k_outcome :
  level3_outcome kernel st C OffsetC
    (checked check fsyr2k A (Some B) (Some C) opts)
    (Her2k kernel check A B C alpha beta opts st).
Proof. unfold Her2k. outcome fsyr2k A (Some B) (Some C). Qed.

Lemma Trmm_outcome :
  level3_outcome kernel st B OffsetB
    (checked check ftrmm A (Some B) None opts)
    (Trmm kernel check A B alpha opts st).
Proof. unfold Trmm. outcome ftrmm A (Some B) (@None Matrix). Qed.

Lemma Trsm_outcome :
  level3_outcome kernel st B OffsetB
    (checked check ftrsm A (Some B) None opts)
    (Trsm kernel check A B alpha opts st).
Proof. unfold Trsm. outcome ftrsm A (Some B) (@None Matrix). Qed.

End Level3Outcomes.


Lemma outcome_quiet (kernel : KernelCall -> KernelOut) (st : Store)
    (X : Matrix) (off : IndexOpts -> Z) (f : Flow (Parameters * IndexOpts))
    (out : Outcome) :
  level3_outcome kernel st X off f out -> quiet_failure st out.
Proof.
  intros [(r & Hr & ->) | [(params & ind & _ & ->) |
          (params & ind & call & _ & _ & ->)]];
    unfold quiet_failure, invoke; cbn [ret calls heap length];
    (split; [intros H; try contradiction; split; reflexivity | lia]).
Qed.


(** X9.  In the nine level 3 functions everything but success happens
    before the kernel: a call that does not return nil has made no kernel
    call and has left the store as it was; and no call makes more than one
    kernel call. *)
Theorem level3_failures_are_quiet
    (kernel : KernelCall -> KernelOut)
    (check : IndexOpts -> funcNum -> Matrix -> option Matrix ->
             option Matrix -> Parameters -> IndexOpts * option string)
    (A B C : Matrix) (alpha beta : option Matrix) (opts : Opts) (st : Store) :
  quiet_failure st (Gemm kernel check A B C alpha beta opts st) /\
  quiet_failure st (Symm kernel check A B C alpha beta opts st) /\
  quiet_failure st (Hemm kernel check A B C alpha beta opts st) /\
  quiet_failure st (Syrk kernel check A C alpha beta opts st) /\
  quiet_failure st (Herk kernel check A C alpha beta opts st) /\
  quiet_failure st (Syr2k kernel check A B C alpha beta opts st) /\
  quiet_failure st (Her2k kernel check A B C alpha beta opts st) /\
  quiet_failure st (Trmm kernel check A B alpha opts st) /\
  quiet_failure st (Trsm kernel check A B alpha opts st).
Proof.
  repeat match goal with |- _ /\ _ => split end; eapply outcome_quiet.
  - apply Gemm_outcome.
  - apply Symm_outcome.
  - unfold Hemm. apply Symm_outcome.
  - apply Syrk_outcome.
  - apply Herk_outcome.
  - apply Syr2k_outcome.
  - apply Her2k_outcome.
  - apply Trmm_outcome.
  - apply Trsm_outcome.
Qed.

(** Trsm on real operands without [alpha]: the panic comes before the
    kernel and the store is as it was. *)
Lemma level3_failures_are_quiet_witness :
  let out := Trsm Fixture.idle_kernel check_level3_spec Fixture.rA Fixture.rB
                  None Fixture.no_opts Fixture.real_store in
  calls out = [] /\ heap out = Fixture.real_store.
Proof.
  intros out.
  destruct (level3_failures_are_quiet Fixture.idle_kernel check_level3_spec
              Fixture.rA Fixture.rB Fixture.rC None None Fixture.no_opts
              Fixture.real_store) as (_ & _ & _ & _ & _ & _ & _ & _ & [H _]).
  apply H. vm_compute. discriminate.
Defined.



(** ** Level 3: the scalars *)

(** X11.  On real operands the Hermitian updates are the symmetric ones:
    Herk is Syrk and Her2k is Syr2k, result, kernel call and store. *)
Theorem Hermitian_updates_on_real_operands
    (kernel : KernelCall -> KernelOut)
    (check : IndexOpts -> funcNum -> Matrix -> option Matrix ->
             option Matrix -> Parameters -> IndexOpts * option string)
    (A B C : Matrix) (alpha beta : option Matrix) (opts : Opts) (st : Store) :
  mtype A = FloatMatrix ->
  Herk kernel check A C alpha beta opts st
  = Syrk kernel check A C alpha beta opts st /\
  Her2k kernel check A B C alpha beta opts st
  = Syr2k kernel check A B C alpha beta opts st.
Proof.
  intros Hm. unfold Herk, Syrk, Her2k, Syr2k. split.
  - destruct (checked check fsyrk A None (Some C) opts) as [[params ind] | r];
      cbn [tried]; [| reflexivity].
    rewrite Hm. reflexivity.
  - destruct (checked check fsyr2k A (Some B) (Some C) opts)
      as [[params ind] | r]; cbn [tried]; [| reflexivity].
    rewrite Hm. reflexivity.
Qed.

(** Herk and Syrk on 1 by 1 real operands make the same [dsyrk] call. *)
Lemma Hermitian_updates_on_real_operands_witness :
  calls (Herk Fixture.idle_kernel check_level3_spec Fixture.rA Fixture.rC
              None None Fixture.no_opts Fixture.real_store)
  = calls (Syrk Fixture.idle_kernel check_level3_spec Fixture.rA Fixture.rC
                None None Fixture.no_opts Fixture.real_store) /\
  length (calls (Syrk Fixture.idle_kernel check_level3_spec Fixture.rA
                      Fixture.rC None None Fixture.no_opts
                      Fixture.real_store)) = 1%nat.
Proof.
  split; [| reflexivity].
  destruct (Hermitian_updates_on_real_operands Fixture.idle_kernel
              check_level3_spec Fixture.rA Fixture.rB Fixture.rC None None
              Fixture.no_opts Fixture.real_store eq_refl) as [H _].
  exact (f_equal calls H).
Defined.

(** Runs a call whose check has passed up to its scalars. *)
Ltac to_scalars H Hm :=
  let params := fresh "params" in
  let ind := fresh "ind" in
  let Hc := fresh "Hc" in
  let Hg := fresh "Hg" in
  let Ht := fresh "Ht" in
  destruct H as (params & ind & Hc & Hg & Ht);
  unfold Gemm, Hemm, Symm, Syrk, Herk, Syr2k, Her2k, Trmm, Trsm;
  rewrite Hc; cbn [tried];
  unfold zero_m_or_n, no_guard in Hg; try rewrite Hg;
  rewrite Ht, Hm; cbn [negb]; cbv zeta.

(** The slices and the kernel call after the scalars. *)
Ltac ran :=
  unfold ran_with, invoke, sliced;
  repeat match goal with
         | |- context [match slice_from ?l ?o with Some _ => _ | None => _ end] =>
             destruct (slice_from l o)
         end;
  first [ left; reflexivity
        | right; cbn [ret calls]; split;
          [reflexivity | eexists; split; [reflexivity | split; reflexivity]] ].

Ltac verdict :=
  unfold scalar_verdict, real_scalar, tried;
  match goal with
  | |- if ?b then _ else _ => destruct b; [reflexivity | ran]
  end.

(** X12.  On real operands every function tests its scalars, read as
    reals with the defaults 1 and 0, for NaN: a NaN scalar gives the error
    "alpha or beta not a number" ("alpha  not a number" in Trmm) before
    the kernel, and otherwise the kernel receives the two values.  In Trsm
    this holds for a supplied [alpha]. *)
Theorem real_scalars_tested
    (kernel : KernelCall -> KernelOut)
    (check : IndexOpts -> funcNum -> Matrix -> option Matrix ->
             option Matrix -> Parameters -> IndexOpts * option string)
    (A B C : Matrix) (alpha beta : option Matrix) (a : Matrix) (opts : Opts)
    (st : Store) :
  mtype A = FloatMatrix ->
  let x := real_scalar alpha 1 in
  let y := real_scalar beta 0 in
  let tested out :=
    scalar_verdict st (IsNaN x || IsNaN y) "alpha or beta not a number"
                   (RealS x) (Some (RealS y)) out in
  (at_scalars (checked check fgemm A (Some B) (Some C) opts) zero_m_or_n
              (EqualTypes [A; B; C]) ->
   tested (Gemm kernel check A B C alpha beta opts st)) /\
  (at_scalars (checked check fsymm A (Some B) (Some C) opts) zero_m_or_n
              (EqualTypes [A; B; C]) ->
   tested (Symm kernel check A B C alpha beta opts st) /\
   tested (Hemm kernel check A B C alpha beta opts st)) /\
  (at_scalars (checked check fsyrk A None (Some C) opts) no_guard
              (EqualTypes [A; C]) ->
   tested (Syrk kernel check A C alpha beta opts st) /\
   tested (Herk kernel check A C alpha beta opts st)) /\
  (at_scalars (checked check fsyr2k A (Some B) (Some C) opts) no_guard
              (EqualTypes [A; B; C]) ->
   tested (Syr2k kernel check A B C alpha beta opts st) /\
   tested (Her2k kernel check A B C alpha beta opts st)) /\
  (at_scalars (checked check ftrmm A (Some B) None opts) no_guard
              (EqualTypes [A; B]) ->
   scalar_verdict st (IsNaN x) "alpha  not a number" (RealS x) None
                  (Trmm kernel check A B alpha opts st)) /\
  (at_scalars (checked check ftrsm A (Some B) None opts) no_guard
              (EqualTypes [A; B]) ->
   scalar_verdict st (IsNaN (FloatValue a)) "alpha or beta not a number"
                  (RealS (FloatValue a)) None
                  (Trsm kernel check A B (Some a) opts st)).
Proof.
  intros Hm x y tested. subst x y tested. cbv beta.
  repeat match goal with |- _ /\ _ => split end;
    intros H; repeat match goal with |- _ /\ _ => split end;
    to_scalars H Hm; verdict.
Qed.

(** Syrk with a NaN [alpha] on 1 by 1 real operands. *)
Lemma real_scalars_tested_witness :
  Syrk Fixture.idle_kernel check_level3_spec Fixture.rA Fixture.rC
       (Some Sample.nan) None Fixture.no_opts Fixture.real_store
  = mkOutcome (Error "alpha or beta not a number") [] Fixture.real_store.
Proof.
  destruct (real_scalars_tested Fixture.idle_kernel check_level3_spec
              Fixture.rA Fixture.rB Fixture.rC (Some Sample.nan) None
              Sample.nan Fixture.no_opts Fixture.real_store eq_refl)
    as (_ & _ & H & _).
  apply H. do 2 eexists. repeat split; reflexivity.
Defined.

(** X13.  Syr2k on complex operands reads each scalar as a complex number:
    its complex value, or its real value when the complex value is NaN.  A
    scalar that is NaN in both readings gives the error "alpha not a real
    or complex number" (or "beta ...", [alpha] being tested first) before
    the kernel; otherwise the kernel receives the two readings, with the
    defaults 1 and 0. *)
Theorem Syr2k_complex_scalars
    (kernel : KernelCall -> KernelOut)
    (check : IndexOpts -> funcNum -> Matrix -> option Matrix ->
             option Matrix -> Parameters -> IndexOpts * option string)
    (A B C : Matrix) (alpha beta : option Matrix) (opts : Opts) (st : Store) :
  mtype A = ComplexMatrix ->
  at_scalars (checked check fsyr2k A (Some B) (Some C) opts) no_guard
             (EqualTypes [A; B; C]) ->
  let out := Syr2k kernel check A B C alpha beta opts st in
  if not_a_number alpha then
    out = mkOutcome (Error "alpha not a real or complex number") [] st
  else
    scalar_verdict st (not_a_number beta) "beta not a real or complex number"
                   (ComplexS (complex_scalar alpha (complex 1 0)))
                   (Some (ComplexS (complex_scalar beta (complex 0 0)))) out.
Proof.
  intros Hm H out. subst out. to_scalars H Hm.
  unfold scalar_verdict, not_a_number, complex_scalar, tried.
  destruct alpha as [a |], beta as [b |];
    repeat match goal with
           | |- context [cmplx_IsNaN ?z] => destruct (cmplx_IsNaN z)
           | |- context [IsNaN ?x] => destruct (IsNaN x)
           end;
    cbn [andb negb]; first [reflexivity | ran].
Qed.

(** Syr2k on 1 by 1 complex operands: [alpha] is the real three, [beta] a
    complex two. *)
Lemma Syr2k_complex_scalars_witness :
  let out := Syr2k Fixture.idle_kernel check_level3_spec Fixture.zA
                   Fixture.zB Fixture.zC (Some Sample.three)
                   (Some Fixture.ztwo) Fixture.no_opts
                   Fixture.complex_store in
  ran_with Fixture.complex_store out (ComplexS (complex 3 0))
           (Some (ComplexS (complex 2 0))) /\
  ret out = Nil.
Proof.
  split; [| reflexivity].
  apply (Syr2k_complex_scalars Fixture.idle_kernel check_level3_spec
           Fixture.zA Fixture.zB Fixture.zC (Some Sample.three)
           (Some Fixture.ztwo) Fixture.no_opts Fixture.complex_store eq_refl).
  do 2 eexists. repeat split; reflexivity.
Defined.

(** X14.  Outside Syr2k the complex branches have the test of the complex
    value the other way round: a supplied [alpha] whose complex value is a
    number is rejected with the function's alpha error, and one whose
    complex value is NaN goes to the kernel as its real value, untested.
    Symm and Syrk treat [beta] the same way. *)
Theorem complex_scalars_inverted
    (kernel : KernelCall -> KernelOut)
    (check : IndexOpts -> funcNum -> Matrix -> option Matrix ->
             option Matrix -> Parameters -> IndexOpts * option string)
    (A B C : Matrix) (a b : Matrix) (opts : Opts) (st : Store) :
  mtype A = ComplexMatrix ->
  let number s := negb (cmplx_IsNaN (ComplexValue s)) in
  let as_real s := ComplexS (complex (FloatValue s) 0) in
  let one := ComplexS (complex 1 0) in
  let zero := ComplexS (complex 0 0) in
  (at_scalars (checked check fsymm A (Some B) (Some C) opts) zero_m_or_n
              (EqualTypes [A; B; C]) ->
   scalar_verdict st (number a) "alpha not a number" (as_real a) (Some zero)
                  (Symm kernel check A B C (Some a) None opts st) /\
   scalar_verdict st (number b) "beta not a number" one (Some (as_real b))
                  (Symm kernel check A B C None (Some b) opts st)) /\
  (at_scalars (checked check fsyrk A None (Some C) opts) no_guard
              (EqualTypes [A; C]) ->
   scalar_verdict st (number a) "alpha not a number" (as_real a) (Some zero)
                  (Syrk kernel check A C (Some a) None opts st) /\
   scalar_verdict st (number b) "beta not a number" one (Some (as_real b))
                  (Syrk kernel check A C None (Some b) opts st) /\
   scalar_verdict st (number a) "alpha not a real or complex number"
                  (as_real a) (Some (RealS 0%float))
                  (Herk kernel check A C (Some a) None opts st)) /\
  (at_scalars (checked check fsyr2k A (Some B) (Some C) opts) no_guard
              (EqualTypes [A; B; C]) ->
   scalar_verdict st (number a) "alpha not a number" (as_real a)
                  (Some (RealS 0%float))
                  (Her2k kernel check A B C (Some a) None opts st)) /\
  (at_scalars (checked check ftrmm A (Some B) None opts) no_guard
              (EqualTypes [A; B]) ->
   scalar_verdict st (number a) "alpha  not a number" (as_real a) None
                  (Trmm kernel check A B (Some a) opts st)) /\
  (at_scalars (checked check ftrsm A (Some B) None opts) no_guard
              (EqualTypes [A; B]) ->
   scalar_verdict st (number a) "alpha  not a number" (as_real a) None
                  (Trsm kernel check A B (Some a) opts st)).
Proof.
  intros Hm number as_real one zero. subst number as_real one zero. cbv beta.
  repeat match goal with |- _ /\ _ => split end;
    intros H; repeat match goal with |- _ /\ _ => split end;
    to_scalars H Hm; unfold scalar_verdict, tried;
    match goal with
    | |- context [cmplx_IsNaN ?z] => destruct (cmplx_IsNaN z)
    end;
    cbn [negb]; first [reflexivity | ran].
Qed.

(** Trmm on 1 by 1 complex operands with the complex scalar two. *)
Lemma complex_scalars_inverted_witness :
  Trmm Fixture.idle_kernel check_level3_spec Fixture.zA Fixture.zB
       (Some Fixture.ztwo) Fixture.no_opts Fixture.complex_store
  = mkOutcome (Error "alpha  not a number") [] Fixture.complex_store.
Proof.
  destruct (complex_scalars_inverted Fixture.idle_kernel check_level3_spec
              Fixture.zA Fixture.zB Fixture.zC Fixture.ztwo Fixture.ztwo
              Fixture.no_opts Fixture.complex_store eq_refl)
    as (_ & _ & _ & H & _).
  apply H. do 2 eexists. repeat split; reflexivity.
Defined.

(** X15.  Omitted scalars are one and zero: a call with [alpha] and [beta]
    nil that has come to its scalars goes on, and the kernel receives
    [alpha = 1] and [beta = 0] in the domain of the operands ([beta] real
    in Herk and Her2k).  Trsm does so on complex operands. *)
Theorem omitted_scalars_are_one_and_zero
    (kernel : KernelCall -> KernelOut)
    (check : IndexOpts -> funcNum -> Matrix -> option Matrix ->
             option Matrix -> Parameters -> IndexOpts * option string)
    (A B C : Matrix) (opts : Opts) (st : Store) :
  let one := one_of (mtype A) in
  let zero := zero_of (mtype A) in
  (at_scalars (checked check fgemm A (Some B) (Some C) opts) zero_m_or_n
              (EqualTypes [A; B; C]) ->
   ran_with st (Gemm kernel check A B C None None opts st) one (Some zero)) /\
  (at_scalars (checked check fsymm A (Some B) (Some C) opts) zero_m_or_n
              (EqualTypes [A; B; C]) ->
   ran_with st (Symm kernel check A B C None None opts st) one (Some zero)) /\
  (at_scalars (checked check fsyrk A None (Some C) opts) no_guard
              (EqualTypes [A; C]) ->
   ran_with st (Syrk kernel check A C None None opts st) one (Some zero) /\
   ran_with st (Herk kernel check A C None None opts st) one
            (Some (RealS 0%float))) /\
  (at_scalars (checked check fsyr2k A (Some B) (Some C) opts) no_guard
              (EqualTypes [A; B; C]) ->
   ran_with st (Syr2k kernel check A B C None None opts st) one (Some zero) /\
   ran_with st (Her2k kernel check A B C None None opts st) one
            (Some (RealS 0%float))) /\
  (at_scalars (checked check ftrmm A (Some B) None opts) no_guard
              (EqualTypes [A; B]) ->
   ran_with st (Trmm kernel check A B None opts st) one None) /\
  (at_scalars (checked check ftrsm A (Some B) None opts) no_guard
              (EqualTypes [A; B]) ->
   mtype A = ComplexMatrix ->
   ran_with st (Trsm kernel check A B None opts st) one None).
Proof.
  intros one zero. subst one zero.
  repeat match goal with |- _ /\ _ => split end;
    intros H; try intros Hm'; repeat match goal with |- _ /\ _ => split end;
    destruct (mtype A) eqn:Hm; try discriminate;
    to_scalars H Hm;
    unfold tried, one_of, zero_of;
    try change (IsNaN 1%float || IsNaN 0%float) with false;
    try change (IsNaN 1%float) with false; cbv iota; ran.
Qed.

(** Her2k without scalars on 1 by 1 complex operands. *)
Lemma omitted_scalars_are_one_and_zero_witness :
  let out := Her2k Fixture.idle_kernel check_level3_spec Fixture.zA
                   Fixture.zB Fixture.zC None None Fixture.no_opts
                   Fixture.complex_store in
  ran_with Fixture.complex_store out (ComplexS (complex 1 0))
           (Some (RealS 0%float)) /\
  ret out = Nil.
Proof.
  split; [| reflexivity].
  destruct (omitted_scalars_are_one_and_zero Fixture.idle_kernel
              check_level3_spec Fixture.zA Fixture.zB Fixture.zC
              Fixture.no_opts Fixture.complex_store)
    as (_ & _ & _ & H & _).
  apply H. do 2 eexists. repeat split; reflexivity.
Defined.

(** X16.  In Herk and Her2k on complex operands [beta] is a real number:
    a supplied [beta] is read as a real, a NaN gives the error "beta not a
    real number" before the kernel, and otherwise the kernel receives the
    real value. *)
Theorem Hermitian_beta_is_real
    (kernel : KernelCall -> KernelOut)
    (check : IndexOpts -> funcNum -> Matrix -> option Matrix ->
             option Matrix -> Parameters -> IndexOpts * option string)
    (A B C : Matrix) (b : Matrix) (opts : Opts) (st : Store) :
  mtype A = ComplexMatrix ->
  (at_scalars (checked check fsyrk A None (Some C) opts) no_guard
              (EqualTypes [A; C]) ->
   scalar_verdict st (IsNaN (FloatValue b)) "beta not a real number"
                  (ComplexS (complex 1 0)) (Some (RealS (FloatValue b)))
                  (Herk kernel check A C None (Some b) opts st)) /\
  (at_scalars (checked check fsyr2k A (Some B) (Some C) opts) no_guard
              (EqualTypes [A; B; C]) ->
   scalar_verdict st (IsNaN (FloatValue b)) "beta not a real number"
                  (ComplexS (complex 1 0)) (Some (RealS (FloatValue b)))
                  (Her2k kernel check A B C None (Some b) opts st)).
Proof.
  intros Hm.
  split; intros H; to_scalars H Hm; unfold scalar_verdict, tried;
    destruct (IsNaN (FloatValue b)); first [reflexivity | ran].
Qed.

(** Herk on 1 by 1 complex operands with the complex scalar two, whose
    real value is NaN, as [beta]. *)
Lemma Hermitian_beta_is_real_witness :
  Herk Fixture.idle_kernel check_level3_spec Fixture.zA Fixture.zC None
       (Some Fixture.ztwo) Fixture.no_opts Fixture.complex_store
  = mkOutcome (Error "beta not a real number") [] Fixture.complex_store.
Proof.
  destruct (Hermitian_beta_is_real Fixture.idle_kernel check_level3_spec
              Fixture.zA Fixture.zB Fixture.zC Fixture.ztwo Fixture.no_opts
              Fixture.complex_store eq_refl) as [H _].
  apply H. do 2 eexists. repeat split; reflexivity.
Defined.

(** ** Level 3: the operands *)

Lemma slice_from_cases {T} (s : list T) (lo : Z) :
  (0 <= lo <= len s /\ slice_from s lo = Some (drop (Z.to_nat lo) s)) \/
  (~ 0 <= lo <= len s /\ slice_from s lo = None).
Proof.
  unfold slice_from.
  destruct (Z.leb_spec 0 lo); destruct (Z.leb_spec lo (len s)); cbn [andb];
    first [left; split; [lia | reflexivity] | right; split; [lia | reflexivity]].
Qed.

Ltac slices :=
  unfold sliced;
  repeat match goal with
         | |- context [slice_from ?s ?lo] =>
             let Hin := fresh "Hin" in
             destruct (slice_from_cases s lo) as [[Hin ->] | [Hin ->]];
             cbv beta iota
         end.

Ltac operands Hc Hm :=
  unfold Gemm, Hemm, Symm, Syrk, Herk, Syr2k, Her2k, Trmm, Trsm;
  rewrite Hc; cbn [tried];
  rewrite Hm; cbv beta iota zeta; unfold tried;
  repeat match goal with
         | |- context [if ?b then _ else _] => destruct b
         | |- context [match ?o with Some _ => _ | None => _ end] => destruct o
         end;
  slices;
  unfold operand_slices, invoke, not_same_type, nil_panic, slice_panic;
  cbn [calls ret];
  (split;
   [ intros call Hcall; try discriminate Hcall;
     injection Hcall as <-;
     cbv beta iota delta [in_array from_offset call_operands]; cbn [map];
     (split;
      [ repeat (apply Forall_cons_2; [cbv beta iota; assumption |]);
        apply Forall_nil_2
      | reflexivity ])
   | intros Hr; try discriminate Hr;
     cbv beta iota delta [in_array];
     repeat first [ apply Exists_cons_hd; cbv beta iota; assumption
                  | apply Exists_cons_tl ] ]).

(** X17.  Each operand reaches the kernel as its backing array from its
    resolved offset on, together with its resolved stride, and a kernel
    call is made only when every offset lies inside its array; when a call
    ends in the slice panic, an offset the check let through lay outside
    its array. *)
Theorem level3_operands_from_offsets
    (kernel : KernelCall -> KernelOut)
    (check : IndexOpts -> funcNum -> Matrix -> option Matrix ->
             option Matrix -> Parameters -> IndexOpts * option string)
    (A B C : Matrix) (alpha beta : option Matrix) (opts : Opts) (st : Store)
    (params : Parameters) (ind : IndexOpts) :
  let t := mtype A in
  let a : Operand := (A, OffsetA ind, LDa ind) in
  let b : Operand := (B, OffsetB ind, LDb ind) in
  let c : Operand := (C, OffsetC ind, LDc ind) in
  (checked check fgemm A (Some B) (Some C) opts = Next (params, ind) ->
   operand_slices st t [a; b; c] (Gemm kernel check A B C alpha beta opts st)) /\
  (checked check fsymm A (Some B) (Some C) opts = Next (params, ind) ->
   operand_slices st t [a; b; c] (Symm kernel check A B C alpha beta opts st) /\
   operand_slices st t [a; b; c] (Hemm kernel check A B C alpha beta opts st)) /\
  (checked check fsyrk A None (Some C) opts = Next (params, ind) ->
   operand_slices st t [a; c] (Syrk kernel check A C alpha beta opts st) /\
   operand_slices st t [a; c] (Herk kernel check A C alpha beta opts st)) /\
  (checked check fsyr2k A (Some B) (Some C) opts = Next (params, ind) ->
   operand_slices st t [a; b; c] (Syr2k kernel check A B C alpha beta opts st) /\
   operand_slices st t [a; b; c] (Her2k kernel check A B C alpha beta opts st)) /\
  (checked check ftrmm A (Some B) None opts = Next (params, ind) ->
   operand_slices st t [a; b] (Trmm kernel check A B alpha opts st)) /\
  (checked check ftrsm A (Some B) None opts = Next (params, ind) ->
   operand_slices st t [a; b] (Trsm kernel check A B alpha opts st)).
Proof.
  intros t a b c. subst t a b c.
  repeat match goal with |- _ /\ _ => split end;
    intros Hc; repeat match goal with |- _ /\ _ => split end;
    destruct (mtype A) eqn:Hm; operands Hc Hm.
Qed.

(** Trmm on a 1 by 1 operand [A] that starts at the second element of its
    array: the kernel receives the array from there on. *)
Lemma level3_operands_from_offsets_witness :
  let out := Trmm Fixture.idle_kernel check_level3_spec Sample.A11_at1
                  Fixture.rB None Sample.offset_opts Sample.offset_store in
  exists call,
    calls out = [call] /\ ret out = Nil /\
    call_operands call = [(FloatBuf [2%float], 1); (FloatBuf [3%float], 1)].
Proof.
  eexists. split; [reflexivity |]. split; [reflexivity |].
  destruct (level3_operands_from_offsets Fixture.idle_kernel
              check_level3_spec Sample.A11_at1 Fixture.rB Fixture.rC None None
              Sample.offset_opts Sample.offset_store Fixture.default_params
              Sample.offset_index) as (_ & _ & _ & _ & H & _).
  exact (proj2 (proj1 (H eq_refl) _ eq_refl)).
Defined.

(** ** Level 3: the errors of the option parser and of the check *)

Lemma checked_parse_error
    (check : IndexOpts -> funcNum -> Matrix -> option Matrix ->
             option Matrix -> Parameters -> IndexOpts * option string)
    (fn : funcNum) (A : Matrix) (B C : option Matrix) (opts : Opts)
    (e : string) :
  GetParameters opts = inr e ->
  checked check fn A B C opts = Return (Error e).
Proof. intros H. unfold checked. rewrite H. reflexivity. Qed.

Lemma checked_check_error
    (check : IndexOpts -> funcNum -> Matrix -> option Matrix ->
             option Matrix -> Parameters -> IndexOpts * option string)
    (fn : funcNum) (A : Matrix) (B C : option Matrix) (opts : Opts)
    (params : Parameters) (e : string) :
  GetParameters opts = inl params ->
  snd (check (GetIndexOpts opts) fn A B C params) = Some e ->
  checked check fn A B C opts = Return (Error e).
Proof.
  intros H He. unfold checked. rewrite H.
  destruct (check (GetIndexOpts opts) fn A B C params) as [ind [e' |]];
    cbn [snd] in He; congruence.
Qed.

(** X18.  The errors of the option parser and of the check come first: all
    nine functions return them as they are, without a kernel call and with
    the store as it was, whatever the types of the operands and whatever
    the scalars, nil or NaN. *)
Theorem level3_option_errors_first
    (kernel : KernelCall -> KernelOut)
    (check : IndexOpts -> funcNum -> Matrix -> option Matrix ->
             option Matrix -> Parameters -> IndexOpts * option string)
    (A B C : Matrix) (alpha beta : option Matrix) (opts : Opts) (st : Store)
    (e : string) :
  let failed fn X Y :=
    GetParameters opts = inr e \/
    exists params,
      GetParameters opts = inl params /\
      snd (check (GetIndexOpts opts) fn A X Y params) = Some e in
  let stopped := mkOutcome (Error e) [] st in
  (failed fgemm (Some B) (Some C) ->
   Gemm kernel check A B C alpha beta opts st = stopped) /\
  (failed fsymm (Some B) (Some C) ->
   Symm kernel check A B C alpha beta opts st = stopped /\
   Hemm kernel check A B C alpha beta opts st = stopped) /\
  (failed fsyrk None (Some C) ->
   Syrk kernel check A C alpha beta opts st = stopped /\
   Herk kernel check A C alpha beta opts st = stopped) /\
  (failed fsyr2k (Some B) (Some C) ->
   Syr2k kernel check A B C alpha beta opts st = stopped /\
   Her2k kernel check A B C alpha beta opts st = stopped) /\
  (failed ftrmm (Some B) None ->
   Trmm kernel check A B alpha opts st = stopped) /\
  (failed ftrsm (Some B) None ->
   Trsm kernel check A B alpha opts st = stopped).
Proof.
  intros failed stopped. subst failed stopped. cbv beta.
  repeat match goal with |- _ /\ _ => split end;
    intros [H | (params & H & He)];
    repeat match goal with |- _ /\ _ => split end;
    unfold Gemm, Hemm, Symm, Syrk, Herk, Syr2k, Her2k, Trmm, Trsm;
    first [ rewrite (checked_parse_error _ _ _ _ _ _ _ H)
          | rewrite (checked_check_error _ _ _ _ _ _ _ _ H He) ];
    reflexivity.
Qed.

(** Trsm with a 2 by 1 real [A], a complex [B] and no [alpha]: the error of
    the check is what the call returns. *)
Lemma level3_option_errors_first_witness :
  Trsm Fixture.idle_kernel check_level3_spec Fixture.B21 Fixture.zB None
       Fixture.no_opts Fixture.mixed_store
  = mkOutcome (Error "shape error") [] Fixture.mixed_store.
Proof.
  destruct (level3_option_errors_first Fixture.idle_kernel check_level3_spec
              Fixture.B21 Fixture.zB Fixture.rC None None Fixture.no_opts
              Fixture.mixed_store "shape error")
    as (_ & _ & _ & _ & _ & H).
  apply H. right. eexists. split; reflexivity.
Defined.
